(** * Session keys of gopenpgp: registry, stream composition, decryption

    A shallow embedding of [crypto/sessionkey.go] and of
    [internal.CanonicalizeAndTrim], with the statements of the
    specification proved (or refuted) over it.

    Conventions.
    - A Go [[]byte] value is a [list byte]; where aliasing matters
      (module [Slices]) a slice is a window on a backing array in a store.
    - A Go [string] is a [string] (a sequence of bytes).
    - [packet.CipherFunction] and the other [uint8]/[uint32]/[uint64]
      values are [N]; lengths and sizes are [nat].
    - A Go [(T, error)] result that is either [(nil, err)] or [(v, nil)]
      is a [result T]; [DecryptAndVerify], which can return both, returns a
      pair of options.
    - The OpenPGP packet library (go-crypto) is not part of the repository:
      its operations are the fields of the class [PacketLibrary], and what
      is assumed about them is stated in the class [PacketLibraryLaws]. *)

From Stdlib Require Import ZArith NArith String Ascii List Lia.
From Stdlib.Strings Require Import Byte.
From stdpp Require Import base option list gmap strings pretty.

Open Scope string_scope.
Open Scope list_scope.

(** ** Bytes and errors *)

Abbreviation bytes := (list byte).

#[global] Instance byte_eq_decision : EqDecision byte := byte_eq_dec.

(** Status values carried by a signature verification error. *)
Inductive SignatureStatus : Type :=
| SIGNATURE_OK
| SIGNATURE_NOT_SIGNED
| SIGNATURE_NO_VERIFIER
| SIGNATURE_FAILED.

(** Go [error] values: [errors.New]/[fmt.Errorf] build an [errorString],
    [errors.Wrap] a [withMessage]; [SignatureVerificationError] is the
    repository's own error type. *)
Inductive error : Type :=
| errorString (msg : string)
| withMessage (cause : error) (msg : string)
| SignatureVerificationError (Status : SignatureStatus) (Message : string).

#[global] Instance SignatureStatus_eq_dec : EqDecision SignatureStatus.
Proof. solve_decision. Defined.

#[global] Instance error_eq_dec : EqDecision error.
Proof. solve_decision. Defined.

Module errors.
Definition New (msg : string) : error := errorString msg.
(** [errors.Wrap] of a non-nil error; every call site is guarded by
    [err != nil]. *)
Definition Wrap (err : error) (msg : string) : error := withMessage err msg.
End errors.

Fixpoint Error (e : error) : string :=
  match e with
  | errorString msg => msg
  | withMessage cause msg => msg +:+ ": " +:+ Error cause
  | SignatureVerificationError _ msg => "Signature Verification Error: " +:+ msg
  end.

Inductive result (A : Type) : Type :=
| Ok (a : A)
| Err (e : error).
Arguments Ok {A} a.
Arguments Err {A} e.

Definition is_Ok {A} (r : result A) : bool :=
  match r with Ok _ => true | Err _ => false end.

(** ** The cipher registry *)

Definition CipherFunction := N.

Module packet.
(** Cipher identifiers and key sizes of the packet library (RFC 4880,
    section 9.2). *)
Definition Cipher3DES : CipherFunction := 2%N.
Definition CipherCAST5 : CipherFunction := 3%N.
Definition CipherAES128 : CipherFunction := 7%N.
Definition CipherAES192 : CipherFunction := 8%N.
Definition CipherAES256 : CipherFunction := 9%N.

Definition KeySize (cipher : CipherFunction) : nat :=
  if decide (cipher = CipherCAST5) then 16
  else if decide (cipher = Cipher3DES) then 24
  else if decide (cipher = CipherAES128) then 16
  else if decide (cipher = CipherAES192) then 24
  else if decide (cipher = CipherAES256) then 32
  else 0.
End packet.

Module constants.
(** Modelled from the spec: package [constants] is not among the
    sources; these are the names of the closed set of algorithms (3DES
    under two aliases, CAST5, AES-128/192/256). *)
Definition ThreeDES : string := "3des".
Definition TripleDES : string := "tripledes".
Definition CAST5 : string := "cast5".
Definition AES128 : string := "aes128".
Definition AES192 : string := "aes192".
Definition AES256 : string := "aes256".
End constants.

(** The map literal, in source order. *)
Definition symKeyAlgos_entries : list (string * CipherFunction) :=
  [ (constants.ThreeDES, packet.Cipher3DES);
    (constants.TripleDES, packet.Cipher3DES);
    (constants.CAST5, packet.CipherCAST5);
    (constants.AES128, packet.CipherAES128);
    (constants.AES192, packet.CipherAES192);
    (constants.AES256, packet.CipherAES256) ].

Definition symKeyAlgos : gmap string CipherFunction :=
  list_to_map symKeyAlgos_entries.

(** [for k, v := range symKeyAlgos] visits the entries in an order the
    language leaves open: an iteration order is any arrangement of the
    entries of the map. *)
Definition range_order (order : list (string * CipherFunction)) : Prop :=
  order ≡ₚ map_to_list symKeyAlgos.

(** ** Session keys *)

Record SessionKey : Type := {
  Key : bytes;
  Algo : string;
}.

Definition GetCipherFunc (sk : SessionKey) : result CipherFunction :=
  match symKeyAlgos !! Algo sk with
  | None => Err (errors.New ("gopenpgp: unsupported cipher function: " +:+ Algo sk))
  | Some cf => Ok cf
  end.

(** Go's builtin [copy(dst, src)]: the prefix of [dst] is overwritten, its
    length never changes. *)
Definition copy (dst src : bytes) : bytes :=
  take (length dst) (src ++ drop (length src) dst).

(** A source of bytes read with [io.ReadFull]: asked for [n] bytes it
    delivers them or fails. *)
Definition Reader := nat → result bytes.

Definition ReadFull (r : Reader) (buf : bytes) : result bytes :=
  match r (length buf) with
  | Err e => Err e
  | Ok bs => Ok (copy buf bs)
  end.

(** [make([]byte, size)] *)
Definition make (size : nat) : bytes := replicate size x00.

(** [RandomToken]; [random] is [config.Random()], the entropy source of
    the process. *)
Definition RandomToken (random : Reader) (size : nat) : result bytes :=
  let symKey := make size in
  match ReadFull random symKey with
  | Err err => Err (errors.Wrap err "gopenpgp: error in generating random token")
  | Ok symKey => Ok symKey
  end.

Definition GenerateSessionKeyAlgo (random : Reader) (algo : string) : result SessionKey :=
  match symKeyAlgos !! algo with
  | None => Err (errors.New "gopenpgp: unknown symmetric key generation algorithm")
  | Some cf =>
      match RandomToken random (packet.KeySize cf) with
      | Err err => Err err
      | Ok r => Ok {| Key := r; Algo := algo |}
      end
  end.

Definition GenerateSessionKey (random : Reader) : result SessionKey :=
  GenerateSessionKeyAlgo random constants.AES256.

(** Modelled from the spec: [clone] is a helper of package [crypto] that is
    not among the sources; it returns a fresh copy of its argument
    ([make] then [copy]). On values a fresh copy is the same sequence of
    bytes; module [Slices] models the fresh backing array. *)
Definition clone (input : bytes) : bytes := copy (make (length input)) input.

Definition NewSessionKeyFromToken (token : bytes) (algo : string) : SessionKey :=
  {| Key := clone token; Algo := algo |}.

Definition checkSize (sk : SessionKey) : option error :=
  match symKeyAlgos !! Algo sk with
  | None => Some (errors.New "unknown symmetric key algorithm")
  | Some cf =>
      if decide (packet.KeySize cf ≠ length (Key sk))
      then Some (errors.New "wrong session key size")
      else None
  end.

(** The loop [for k, v := range symKeyAlgos { if v == cipher { algo = k;
    break } }] over the iteration order [order], started with [algo]. *)
Fixpoint range_find (order : list (string * CipherFunction))
    (cipher : CipherFunction) (algo : string) : string :=
  match order with
  | [] => algo
  | (k, v) :: rest =>
      if decide (v = cipher) then k else range_find rest cipher algo
  end.

Definition getAlgo (order : list (string * CipherFunction))
    (cipher : CipherFunction) : string :=
  range_find order cipher constants.AES256.

(** [packet.EncryptedKey], the fields read here. *)
Record EncryptedKey : Type := {
  ek_CipherFunc : CipherFunction;
  ek_Key : bytes;
}.

Definition newSessionKeyFromEncrypted (order : list (string * CipherFunction))
    (ek : EncryptedKey) : result SessionKey :=
  let algo := range_find order (ek_CipherFunc ek) "" in
  if decide (algo = "") then
    Err (errors.New ("gopenpgp: unsupported cipher function: " +:+ pretty (ek_CipherFunc ek)))
  else
    let sk := {| Key := ek_Key ek; Algo := algo |} in
    match checkSize sk with
    | Some err => Err (errors.Wrap err "gopenpgp: unable to decrypt session key")
    | None => Ok sk
    end.

(** ** Plain messages *)

Record PlainMessage : Type := {
  Data : bytes;
  TextType : bool;
  Filename : string;
  Time : N;
}.

(** Modelled from the spec: the methods of [PlainMessage] are not among
    the sources. The message is flagged binary or text; [IsBinary] is the
    negation of the [TextType] field that [DecryptAndVerify] fills with
    [!md.LiteralData.IsBinary], and [GetBinary] is the raw content. *)
Definition IsBinary (msg : PlainMessage) : bool := negb (TextType msg).
Definition GetBinary (msg : PlainMessage) : bytes := Data msg.

(** ** The interface of the packet library *)

Definition CompressionAlgo := N.

(** A [func() time.Time]: the time it returns at its n-th call. *)
Definition Clock := nat → Z.

Record CompressionConfig : Type := { Level : Z }.

Record Config : Type := {
  cfg_Time : option Clock;
  DefaultCipher : CipherFunction;
  DefaultCompressionAlgo : CompressionAlgo;
  cfg_CompressionConfig : option CompressionConfig;
}.

Module packet_config.
Definition CompressionNone : CompressionAlgo := 0%N.

(** [Config.Cipher]: the zero value stands for AES-128. *)
Definition Cipher (c : Config) : CipherFunction :=
  if decide (DefaultCipher c = 0%N) then packet.CipherAES128 else DefaultCipher c.

Definition Compression (c : Config) : CompressionAlgo := DefaultCompressionAlgo c.
End packet_config.

Module compression.
(** Modelled from the spec: package [constants] is not among the
    sources; compression, when asked for, uses one fixed algorithm and
    one fixed level. *)
Definition DefaultCompression : CompressionAlgo := 2%N.
Definition DefaultCompressionLevel : Z := 6%Z.
End compression.

(** [openpgp.FileHints] *)
Record FileHints : Type := {
  fh_IsBinary : bool;
  fh_FileName : string;
  fh_ModTime : Z;
}.

(** The writers of a chain. Each is built by one constructor of the library
    over the writer below it; [BufferWriter] is the [bytes.Buffer] at the
    bottom. *)
Inductive WriterKind (Entity : Type) : Type :=
| BufferWriter
| SymmetricallyEncryptedWriter (c : CipherFunction) (key : bytes) (config : Config)
| CompressedWriter (algo : CompressionAlgo) (cc : option CompressionConfig)
| LiteralWriter (isBinary : bool) (fileName : string) (time : N)
| SignatureWriter (signed : Entity) (hints : FileHints) (config : Config).
Arguments BufferWriter {Entity}.
Arguments SymmetricallyEncryptedWriter {Entity} c key config.
Arguments CompressedWriter {Entity} algo cc.
Arguments LiteralWriter {Entity} isBinary fileName time.
Arguments SignatureWriter {Entity} signed hints config.

(** What an [io.Reader] yields when read to its end: the bytes, then
    [io.EOF] ([None]) or an error. *)
Record Stream : Type := {
  stream_data : bytes;
  stream_err : option error;
}.

Definition stream_of (b : bytes) : Stream := {| stream_data := b; stream_err := None |}.

(** [packet.SymmetricallyEncrypted] *)
Record SymmetricallyEncrypted : Type := {
  MDC : bool;
  contents : bytes;
}.

(** [packet.Packet], as far as the type switch of the decryptor tells the
    packets apart. *)
Inductive Packet : Type :=
| SymmetricallyEncryptedPacket (p : SymmetricallyEncrypted)
| OtherPacket (tag : N) (body : bytes).

(** [packet.LiteralData] *)
Record LiteralData : Type := {
  ld_IsBinary : bool;
  ld_FileName : string;
  ld_Time : N;
}.

(** [packet.Signature], the fields the time check reads. *)
Record Signature : Type := {
  CreationTime : Z;
  SigLifetimeSecs : option N;
}.

(** [openpgp.MessageDetails]. [SignatureError] and [Signature] hold what
    the library leaves there once [UnverifiedBody] has been read through. *)
Record MessageDetails : Type := {
  IsSigned : bool;
  SignedByKeyId : N;
  md_LiteralData : LiteralData;
  UnverifiedBody : Stream;
  SignatureError : option error;
  md_Signature : option Signature;
}.

(** [KeyRing], of which the decryptor reads the [entities]. *)
Record KeyRing (Entity : Type) : Type := {
  entities : list Entity;
}.
Arguments entities {Entity} k.

(** The operations of go-crypto that the session key code calls, and the
    two helpers of package [crypto] it relies on that are defined in other
    files ([getTimeGenerator], [getSigningEntity]).

    A writer is described by the total input it has been given: [setup]
    is the error of its constructor, [writeErr k sofar p] the error of
    [Write(p)] after [sofar], and [emit k input] what the writer has sent
    to the writer below by the time [Close] returns, or the error of
    [Write]/[Close] on the way. *)
Class PacketLibrary : Type := {
  Entity : Type;
  setup : WriterKind Entity → option error;
  writeErr : WriterKind Entity → bytes → bytes → option error;
  emit : WriterKind Entity → bytes → result bytes;
  (** [packet.NewReader(r).Next()] on a reader over the given bytes *)
  Next : bytes → result Packet;
  (** [SymmetricallyEncrypted.Decrypt] *)
  symDecrypt : SymmetricallyEncrypted → CipherFunction → bytes → result Stream;
  (** [openpgp.ReadMessage(r, keyring, nil, config)] *)
  ReadMessage : Stream → list Entity → Config → result MessageDetails;
  (** [EntityList.KeysById(id)] is not empty *)
  hasKeyId : list Entity → N → bool;
  getTimeGenerator : Clock;
  getSigningEntity : option (KeyRing Entity) → result Entity;
}.

(** ** Writers in a store

    [encryptStreamWithSessionKey] hands back two writers that share the
    writers below them, so writers live in a store and are named by their
    index in it. A writer records the input it has been given so far; when
    it is closed, what it emits is written to the writer below it. *)

Section Composer.
Context {lib : PacketLibrary}.

Record Writer : Type := {
  kind : WriterKind Entity;
  under : option nat;
  input : bytes;
  closed : bool;
}.

Definition Store : Type := list Writer.

(** Computations on the store that may fail with a Go error. *)
Definition M (A : Type) : Type := Store → result (A * Store).

Definition ret {A} (a : A) : M A := λ h, Ok (a, h).

Definition bind {A B} (m : M A) (k : A → M B) : M B :=
  λ h, match m h with
       | Err e => Err e
       | Ok (a, h') => k a h'
       end.

Definition fail {A} (e : error) : M A := λ _, Err e.

(** [if err != nil { return ..., errors.Wrap(err, msg) }] *)
Definition wrapping {A} (msg : string) (m : M A) : M A :=
  λ h, match m h with
       | Err e => Err (errors.Wrap e msg)
       | Ok r => Ok r
       end.

(** Using a writer that is not in the store: a nil dereference in Go. *)
Definition nil_dereference : error :=
  errors.New "invalid memory address or nil pointer dereference".

Definition new_writer (k : WriterKind Entity) (below : option nat) : M nat :=
  λ h, Ok (length h, h ++ [ {| kind := k; under := below; input := []; closed := false |} ]).

(** [new(bytes.Buffer)] *)
Definition NewBuffer : M nat := new_writer BufferWriter None.

(** The constructors of the library: the error of [setup], or a new
    writer on top of [w]. *)
Definition construct (k : WriterKind Entity) (w : nat) : M nat :=
  match setup k with
  | Some e => fail e
  | None => new_writer k (Some w)
  end.

Definition SerializeSymmetricallyEncrypted (w : nat) (c : CipherFunction)
    (key : bytes) (config : Config) : M nat :=
  construct (SymmetricallyEncryptedWriter c key config) w.

Definition SerializeCompressed (w : nat) (algo : CompressionAlgo)
    (cc : option CompressionConfig) : M nat :=
  construct (CompressedWriter algo cc) w.

Definition SerializeLiteral (w : nat) (isBinary : bool) (fileName : string)
    (time : N) : M nat :=
  construct (LiteralWriter isBinary fileName time) w.

Definition Sign (output : nat) (signed : Entity) (hints : FileHints)
    (config : Config) : M nat :=
  construct (SignatureWriter signed hints config) output.

Definition receive (o : Writer) (p : bytes) : Writer :=
  {| kind := kind o; under := under o; input := input o ++ p; closed := closed o |}.

Definition shut (o : Writer) : Writer :=
  {| kind := kind o; under := under o; input := input o; closed := true |}.

(** [w.Write(p)]. Writing to a [bytes.Buffer] never fails. *)
Definition Write (w : nat) (p : bytes) : M unit :=
  λ h, match h !! w with
       | None => Err nil_dereference
       | Some o =>
           match kind o with
           | BufferWriter => Ok (tt, <[w := receive o p]> h)
           | k =>
               match writeErr k (input o) p with
               | Some e => Err e
               | None => Ok (tt, <[w := receive o p]> h)
               end
           end
       end.

(** Whether closing a writer closes the writer below it. The serializers
    take an [io.WriteCloser] and close it in turn; [openpgp.Sign] takes
    an [io.Writer], which it cannot close: the caller closes it. *)
Definition closes_below (k : WriterKind Entity) : bool :=
  match k with
  | SignatureWriter _ _ _ => false
  | _ => true
  end.

(** [w.Close()]: the writer sends what it emits to the writer below, and
    closes that one where the library does. A writer sits on a writer
    made before it, so a chain that starts at [w] has at most [S w]
    writers. *)
Fixpoint close_chain (fuel : nat) (w : nat) : M unit :=
  λ h, match fuel with
       | 0 => Err nil_dereference
       | S fuel =>
           match h !! w with
           | None => Err nil_dereference
           | Some o =>
               match under o with
               | None => Ok (tt, <[w := shut o]> h)
               | Some below =>
                   match emit (kind o) (input o) with
                   | Err e => Err e
                   | Ok out =>
                       bind (Write below out)
                         (λ _, if closes_below (kind o)
                               then close_chain fuel below
                               else ret tt)
                         (<[w := shut o]> h)
                   end
               end
           end
       end.

Definition Close (w : nat) : M unit := close_chain (S w) w.

(** [buf.Bytes()] *)
Definition Bytes (w : nat) : M bytes :=
  λ h, match h !! w with
       | None => Err nil_dereference
       | Some o => Ok (input o, h)
       end.

(** ** The encrypt direction *)

Definition encryptStreamWithSessionKey (isBinary : bool) (filename : string)
    (modTime : N) (dataPacketWriter : nat) (sk : SessionKey)
    (signEntity : option Entity) (config : Config) : M (nat * option nat) :=
  bind (wrapping "gopenpgp: unable to encrypt"
          (SerializeSymmetricallyEncrypted dataPacketWriter
             (packet_config.Cipher config) (Key sk) config))
    (λ encryptWriter,
  bind (let algo := packet_config.Compression config in
        if decide (algo ≠ packet_config.CompressionNone)
        then wrapping "gopenpgp: error in compression"
               (SerializeCompressed encryptWriter algo (cfg_CompressionConfig config))
        else ret encryptWriter)
    (λ encryptWriter,
  match signEntity with
  | Some signEntity =>
      let hints := {| fh_IsBinary := isBinary;
                      fh_FileName := filename;
                      fh_ModTime := Z.of_N modTime |} in
      bind (wrapping "gopenpgp: unable to sign"
              (Sign encryptWriter signEntity hints config))
        (λ signWriter, ret (encryptWriter, Some signWriter))
  | None =>
      bind (wrapping "gopenpgp: unable to serialize"
              (SerializeLiteral encryptWriter isBinary filename modTime))
        (λ encryptWriter, ret (encryptWriter, None))
  end)).

(** The body of [encryptWithSessionKey], on the store. *)
Definition encryptWithSessionKey_run (message : PlainMessage) (sk : SessionKey)
    (signEntity : option Entity) (config : Config) : M bytes :=
  bind NewBuffer (λ encBuf,
  bind (encryptStreamWithSessionKey (IsBinary message) (Filename message)
          (Time message) encBuf sk signEntity config)
    (λ '(encryptWriter, signWriter),
  bind (match signEntity with
        | Some _ =>
            match signWriter with
            | None => fail nil_dereference
            | Some signWriter =>
                bind (wrapping "gopenpgp: error in writing signed message"
                        (Write signWriter (GetBinary message)))
                  (λ _, wrapping "gopenpgp: error in closing signing writer"
                          (Close signWriter))
            end
        | None =>
            wrapping "gopenpgp: error in writing message"
              (Write encryptWriter (GetBinary message))
        end)
    (λ _,
  bind (wrapping "gopenpgp: error in closing encryption writer"
          (Close encryptWriter))
    (λ _, Bytes encBuf)))).

Definition encryptWithSessionKey (message : PlainMessage) (sk : SessionKey)
    (signEntity : option Entity) (config : Config) : result bytes :=
  match encryptWithSessionKey_run message sk signEntity config [] with
  | Err e => Err e
  | Ok (out, _) => Ok out
  end.

Definition Encrypt (sk : SessionKey) (message : PlainMessage) : result bytes :=
  match GetCipherFunc sk with
  | Err err => Err (errors.Wrap err "gopenpgp: unable to encrypt with session key")
  | Ok dc =>
      let config := {| cfg_Time := Some getTimeGenerator;
                       DefaultCipher := dc;
                       DefaultCompressionAlgo := 0%N;
                       cfg_CompressionConfig := None |} in
      encryptWithSessionKey message sk None config
  end.

Definition EncryptAndSign (sk : SessionKey) (message : PlainMessage)
    (signKeyRing : option (KeyRing Entity)) : result bytes :=
  match GetCipherFunc sk with
  | Err err => Err (errors.Wrap err "gopenpgp: unable to encrypt with session key")
  | Ok dc =>
      let config := {| cfg_Time := Some getTimeGenerator;
                       DefaultCipher := dc;
                       DefaultCompressionAlgo := 0%N;
                       cfg_CompressionConfig := None |} in
      match getSigningEntity signKeyRing with
      | Err err => Err (errors.Wrap err "gopenpgp: unable to sign")
      | Ok signEntity => encryptWithSessionKey message sk (Some signEntity) config
      end
  end.

Definition EncryptWithCompression (sk : SessionKey) (message : PlainMessage)
    : result bytes :=
  match GetCipherFunc sk with
  | Err err => Err (errors.Wrap err "gopenpgp: unable to encrypt with session key")
  | Ok dc =>
      let config :=
        {| cfg_Time := Some getTimeGenerator;
           DefaultCipher := dc;
           DefaultCompressionAlgo := compression.DefaultCompression;
           cfg_CompressionConfig :=
             Some {| Level := compression.DefaultCompressionLevel |} |} in
      encryptWithSessionKey message sk None config
  end.

(** ** The decrypt direction *)

Definition decryptStreamWithSessionKey (sk : SessionKey) (messageReader : bytes)
    (verifyKeyRing : option (KeyRing Entity)) : result MessageDetails :=
  match Next messageReader with
  | Err err => Err (errors.Wrap err "gopenpgp: unable to read symmetric packet")
  | Ok p =>
      match p with
      | SymmetricallyEncryptedPacket p =>
          match GetCipherFunc sk with
          | Err err => Err (errors.Wrap err "gopenpgp: unable to decrypt with session key")
          | Ok dc =>
              match symDecrypt p dc (Key sk) with
              | Err err => Err (errors.Wrap err "gopenpgp: unable to decrypt symmetric packet")
              | Ok decrypted =>
                  let config := {| cfg_Time := Some getTimeGenerator;
                                   DefaultCipher := 0%N;
                                   DefaultCompressionAlgo := 0%N;
                                   cfg_CompressionConfig := None |} in
                  let keyring := match verifyKeyRing with
                                 | Some verifyKeyRing => entities verifyKeyRing
                                 | None => []
                                 end in
                  match ReadMessage decrypted keyring config with
                  | Err err => Err (errors.Wrap err "gopenpgp: unable to decode symmetric packet")
                  | Ok md => Ok md
                  end
              end
          end
      | _ => Err (errors.New "gopenpgp: invalid packet type")
      end
  end.

(** [buf.ReadFrom(r)] followed by [buf.Bytes()] on a fresh buffer. *)
Definition ReadFrom (r : Stream) : result bytes :=
  match stream_err r with
  | Some e => Err e
  | None => Ok (stream_data r)
  end.

(** [internal.CreationTimeOffset]: two days, in seconds. *)
Definition CreationTimeOffset : Z := (60 * 60 * 24 * 2)%Z.

(** The error the library leaves in [SignatureError] for a signature
    that is expired at the time of its own clock. *)
Definition ErrSignatureExpired : error := errorString "openpgp: signature expired".

(** Modelled from the spec: [processSignatureExpiration] is defined in
    another file of package [crypto]. The time stamp of the signature is
    evaluated against the verification time: time [0] disables the
    check, and a signature created up to [CreationTimeOffset] seconds
    after the verification time is still accepted. Only the signature
    error of the message details is touched. *)
Definition processSignatureExpiration (md : MessageDetails) (verifyTime : Z)
    : MessageDetails :=
  let cleared := {| IsSigned := IsSigned md;
                    SignedByKeyId := SignedByKeyId md;
                    md_LiteralData := md_LiteralData md;
                    UnverifiedBody := UnverifiedBody md;
                    SignatureError := None;
                    md_Signature := md_Signature md |} in
  if decide (SignatureError md = Some ErrSignatureExpired) then
    if decide (verifyTime = 0%Z) then cleared
    else
      match md_Signature md with
      | None => md
      | Some sig =>
          let created := CreationTime sig in
          let in_lifetime :=
            match SigLifetimeSecs sig with
            | None => true
            | Some secs => bool_decide (verifyTime ≤ created + Z.of_N secs)%Z
            end in
          if in_lifetime && bool_decide (created - CreationTimeOffset ≤ verifyTime)%Z
          then cleared else md
      end
  else md.

(** Modelled from the spec: the constructors of the signature statuses
    are defined in another file of package [crypto]. *)
Definition newSignatureNotSigned : error :=
  SignatureVerificationError SIGNATURE_NOT_SIGNED "Missing signature".
Definition newSignatureNoVerifier : error :=
  SignatureVerificationError SIGNATURE_NO_VERIFIER "No matching signature".
Definition newSignatureFailed : error :=
  SignatureVerificationError SIGNATURE_FAILED "Invalid signature".

(** Modelled from the spec: [verifyDetailsSignature] is defined in another
    file of package [crypto]. With a key set supplied: no signature in
    the message is "not signed"; a signature whose signer matches no key
    of the set is "no matching verifier key"; a matching key and a failed
    check is "verification failed"; otherwise the signature is verified
    ([nil]). *)
Definition verifyDetailsSignature (md : MessageDetails)
    (verifierKey : KeyRing Entity) : option error :=
  if negb (IsSigned md) then Some newSignatureNotSigned
  else if negb (hasKeyId (entities verifierKey) (SignedByKeyId md))
  then Some newSignatureNoVerifier
  else match SignatureError md with
       | Some _ => Some newSignatureFailed
       | None => None
       end.

Definition DecryptAndVerify (sk : SessionKey) (dataPacket : bytes)
    (verifyKeyRing : option (KeyRing Entity)) (verifyTime : Z)
    : option PlainMessage * option error :=
  match decryptStreamWithSessionKey sk dataPacket verifyKeyRing with
  | Err err => (None, Some err)
  | Ok md =>
      match ReadFrom (UnverifiedBody md) with
      | Err err => (None, Some (errors.Wrap err "gopenpgp: error in reading message body"))
      | Ok messageBuf =>
          let '(md, err) :=
            match verifyKeyRing with
            | Some verifyKeyRing =>
                let md := processSignatureExpiration md verifyTime in
                (md, verifyDetailsSignature md verifyKeyRing)
            | None => (md, None)
            end in
          (Some {| Data := messageBuf;
                   TextType := negb (ld_IsBinary (md_LiteralData md));
                   Filename := ld_FileName (md_LiteralData md);
                   Time := ld_Time (md_LiteralData md) |},
           err)
      end
  end.

Definition Decrypt (sk : SessionKey) (dataPacket : bytes)
    : option PlainMessage * option error :=
  DecryptAndVerify sk dataPacket None 0%Z.

End Composer.

(** ** Canonicalization of text *)

Module strings.
(** The functions of Go's [strings] package that the canonicalizer
    calls, for the arguments it passes: a separator of one byte, a cut
    set of ASCII bytes. *)

(** [strings.IndexByte]; [None] is [-1]. *)
Fixpoint IndexByte (s : string) (c : ascii) : option nat :=
  match s with
  | EmptyString => None
  | String a s' => if decide (a = c) then Some 0 else S <$> IndexByte s' c
  end.

(** [strings.Count] for a separator of one byte. *)
Fixpoint CountByte (s : string) (c : ascii) : nat :=
  match s with
  | EmptyString => 0
  | String a s' => (if decide (a = c) then 1 else 0) + CountByte s' c
  end.

(** [s[n:]] *)
Fixpoint from (n : nat) (s : string) : string :=
  match n, s with
  | 0, _ => s
  | S n, String _ s' => from n s'
  | S _, EmptyString => EmptyString
  end.

(** [s[:n]] *)
Fixpoint upto (n : nat) (s : string) : string :=
  match n, s with
  | 0, _ => EmptyString
  | S n, String a s' => String a (upto n s')
  | S _, EmptyString => EmptyString
  end.

(** The loop of [genSplit]: at most [n] cuts, then the rest. *)
Fixpoint split_loop (n : nat) (s : string) (sep : ascii) : list string :=
  match n with
  | 0 => [s]
  | S n =>
      match IndexByte s sep with
      | None => [s]
      | Some m => upto m s :: split_loop n (from (m + 1) s) sep
      end
  end.

(** [strings.Split(s, sep)] with [sep] of one byte: [Count(s, sep) + 1]
    pieces. *)
Definition Split (s : string) (sep : ascii) : list string :=
  split_loop (CountByte s sep) s sep.

Fixpoint last_byte (s : string) : option ascii :=
  match s with
  | EmptyString => None
  | String a EmptyString => Some a
  | String _ s' => last_byte s'
  end.

(** [s[:len(s)-1]] *)
Fixpoint but_last (s : string) : string :=
  match s with
  | EmptyString => EmptyString
  | String _ EmptyString => EmptyString
  | String a s' => String a (but_last s')
  end.

Fixpoint contains (cutset : string) (c : ascii) : bool :=
  match cutset with
  | EmptyString => false
  | String a rest => bool_decide (a = c) || contains rest c
  end.

(** The loop of [TrimRight] on an ASCII cut set: drop the last byte
    while it is in the set. *)
Fixpoint trim_loop (fuel : nat) (s cutset : string) : string :=
  match fuel with
  | 0 => s
  | S fuel =>
      match last_byte s with
      | None => s
      | Some c => if contains cutset c then trim_loop fuel (but_last s) cutset else s
      end
  end.

Definition TrimRight (s cutset : string) : string :=
  trim_loop (String.length s) s cutset.

(** [strings.Join]: the first element, then separator and element for
    each of the others. *)
Definition Join (elems : list string) (sep : string) : string :=
  match elems with
  | [] => EmptyString
  | e :: rest => fold_left (λ b s, b +:+ sep +:+ s) rest e
  end.
End strings.

Module internal.
Definition LF : ascii := "010"%char.
Definition CR : ascii := "013"%char.
Definition TAB : ascii := "009"%char.
Definition SPACE : ascii := " "%char.

(** [" \t\r"] *)
Definition cutset : string := String SPACE (String TAB (String CR EmptyString)).
(** ["\r\n"] *)
Definition CRLF : string := String CR (String LF EmptyString).

(** [for i := range lines { lines[i] = strings.TrimRight(lines[i], " \t\r") }]
    over the indices [idxs]. *)
Fixpoint trim_each (idxs : list nat) (lines : list string) : list string :=
  match idxs with
  | [] => lines
  | i :: idxs =>
      match lines !! i with
      | None => lines
      | Some line => trim_each idxs (<[i := strings.TrimRight line cutset]> lines)
      end
  end.

Definition CanonicalizeAndTrim (text : string) : string :=
  let lines := strings.Split text LF in
  let lines := trim_each (seq 0 (length lines)) lines in
  strings.Join lines CRLF.
End internal.

(** The canonical form in the words of the specification: split the text
    on line feeds, strip trailing spaces, tabs and carriage returns from
    each line, rejoin with CRLF. *)
Module canonical_form.
Definition blank (c : ascii) : bool :=
  bool_decide (c = internal.SPACE) || bool_decide (c = internal.TAB)
  || bool_decide (c = internal.CR).

Fixpoint lines_of (text : string) : list string :=
  match text with
  | EmptyString => [EmptyString]
  | String c rest =>
      if decide (c = internal.LF) then EmptyString :: lines_of rest
      else match lines_of rest with
           | [] => [String c EmptyString]
           | line :: more => String c line :: more
           end
  end.

Fixpoint strip (line : string) : string :=
  match line with
  | EmptyString => EmptyString
  | String c rest =>
      match strip rest with
      | EmptyString => if blank c then EmptyString else String c EmptyString
      | kept => String c kept
      end
  end.

Fixpoint rejoin (lines : list string) : string :=
  match lines with
  | [] => EmptyString
  | [line] => line
  | line :: more => line +:+ internal.CRLF +:+ rejoin more
  end.

Definition canonicalize (text : string) : string :=
  rejoin (map strip (lines_of text)).
End canonical_form.


(** What the session key code assumes of the packet library on the
    unsigned, uncompressed path, writer by writer. A key of the size of its
    registered cipher is accepted, and writing to the encryption and
    literal-data writers does not fail. What the encryption writer emits is
    read as one symmetrically encrypted packet, which the same cipher and
    key decrypt to the bytes the writer was given. What the literal-data
    writer emits is read as a message with that body and that flag, file
    name and time; the literal-data packet of OpenPGP holds the length of
    the file name in one octet, so this is for names of at most 255 bytes,
    and of a longer name the writer keeps the first 255 bytes. *)
Definition registered (c : CipherFunction) : Prop :=
  ∃ algo, symKeyAlgos !! algo = Some c.

Class PacketLibraryLaws (lib : PacketLibrary) : Prop := {
  symmetric_setup c key config :
    registered c → packet.KeySize c = length key →
    setup (SymmetricallyEncryptedWriter c key config) = None;
  symmetric_write c key config sofar p :
    writeErr (SymmetricallyEncryptedWriter c key config) sofar p = None;
  literal_setup isBinary fileName time :
    setup (LiteralWriter isBinary fileName time) = None;
  literal_write isBinary fileName time sofar p :
    writeErr (LiteralWriter isBinary fileName time) sofar p = None;
  literal_name_limit isBinary fileName time data :
    emit (LiteralWriter isBinary fileName time) data
    = emit (LiteralWriter isBinary (strings.upto 255 fileName) time) data;
  symmetric_inverse c key config data :
    registered c → packet.KeySize c = length key →
    ∃ ct p,
      emit (SymmetricallyEncryptedWriter c key config) data = Ok ct
      ∧ Next ct = Ok (SymmetricallyEncryptedPacket p)
      ∧ symDecrypt p c key = Ok (stream_of data);
  literal_inverse isBinary fileName time data keyring config :
    (String.length fileName ≤ 255)%nat →
    ∃ lit md,
      emit (LiteralWriter isBinary fileName time) data = Ok lit
      ∧ ReadMessage (stream_of lit) keyring config = Ok md
      ∧ UnverifiedBody md = stream_of data
      ∧ md_LiteralData md = {| ld_IsBinary := isBinary;
                               ld_FileName := fileName;
                               ld_Time := time |};
}.

(** ** Byte slices in memory

    A slice is a window on a backing array; two slices on the same array
    see each other's writes. [NewSessionKeyFromToken] is modelled here on
    the memory, to tell a copy of the token from an alias of it. *)

Module Slices.
Definition copy_bytes := copy.

Record slice : Type := {
  array : nat;
  offset : nat;
  len : nat;
}.

(** The backing arrays, by address. *)
Abbreviation Memory := (list bytes).

Definition valid (m : Memory) (s : slice) : Prop :=
  ∃ a, m !! array s = Some a ∧ (offset s + len s ≤ length a)%nat.

(** The bytes a slice shows. *)
Definition load (m : Memory) (s : slice) : bytes :=
  match m !! array s with
  | None => []
  | Some a => take (len s) (drop (offset s) a)
  end.

(** [s[i] = b]; [None] is the panic of an index out of range. *)
Definition store (m : Memory) (s : slice) (i : nat) (b : byte) : option Memory :=
  match m !! array s with
  | None => None
  | Some a =>
      if decide (i < len s)
      then Some (<[array s := <[offset s + i := b]> a]> m)
      else None
  end.

(** A sequence of element writes. *)
Fixpoint stores (m : Memory) (ws : list (slice * nat * byte)) : option Memory :=
  match ws with
  | [] => Some m
  | (s, i, b) :: ws =>
      match store m s i b with
      | None => None
      | Some m' => stores m' ws
      end
  end.

(** [make([]byte, n)]: a slice on a new array. *)
Definition make (n : nat) (m : Memory) : slice * Memory :=
  ({| array := length m; offset := 0; len := n |}, m ++ [replicate n x00]).

(** [copy(dst, src)] *)
Definition copy (dst src : slice) (m : Memory) : Memory :=
  match m !! array dst with
  | None => m
  | Some a =>
      <[array dst :=
          take (offset dst) a
          ++ copy_bytes (take (len dst) (drop (offset dst) a)) (load m src)
          ++ drop (offset dst + len dst) a]> m
  end.

(** Modelled from the spec: [clone] is a helper of package [crypto] that
    is not among the sources; it returns a fresh copy of its argument,
    [make] followed by [copy]. *)
Definition clone (input : slice) (m : Memory) : slice * Memory :=
  let '(output, m) := make (len input) m in
  (output, copy output input m).

(** A [SessionKey] whose [Key] is a slice. *)
Record SessionKey : Type := {
  Key : slice;
  Algo : string;
}.

Definition NewSessionKeyFromToken (token : slice) (algo : string) (m : Memory)
    : SessionKey * Memory :=
  let '(key, m) := clone token m in
  ({| Key := key; Algo := algo |}, m).

(** A memory with one array of three bytes, and the slice of a caller on
    all of it. *)
Definition one_array : Memory := [[x01; x02; x03]].
Definition whole : slice := {| array := 0; offset := 0; len := 3 |}.

(** The session key as a value: its bytes in the memory, and its
    algorithm. *)
Definition value (m : Memory) (sk : SessionKey) : bytes * string :=
  (load m (Key sk), Algo sk).
End Slices.

(** ** A packet library to run the code on

    An executable instance of [PacketLibrary] with a transparent packet
    format and no secrecy: an encrypted packet carries the cipher
    identifier and the key in the clear, and opening it checks both. It
    shows that the laws of [PacketLibraryLaws] can be met, and the
    statements below are run on it. *)

Module Reference.
Fixpoint enc_pos (p : positive) : bytes :=
  match p with
  | xH => [x02]
  | xO p => x00 :: enc_pos p
  | xI p => x01 :: enc_pos p
  end.

Definition enc_N (n : N) : bytes :=
  match n with
  | N0 => [x03]
  | Npos p => enc_pos p
  end.

Fixpoint dec_pos (bs : bytes) : option (positive * bytes) :=
  match bs with
  | [] => None
  | b :: rest =>
      if decide (b = x02) then Some (xH, rest)
      else if decide (b = x00) then
        match dec_pos rest with
        | Some (p, rest') => Some (xO p, rest')
        | None => None
        end
      else if decide (b = x01) then
        match dec_pos rest with
        | Some (p, rest') => Some (xI p, rest')
        | None => None
        end
      else None
  end.

Definition dec_N (bs : bytes) : option (N * bytes) :=
  match bs with
  | [] => None
  | b :: rest =>
      if decide (b = x03) then Some (N0, rest)
      else match dec_pos bs with
           | Some (p, rest') => Some (Npos p, rest')
           | None => None
           end
  end.

(** A run of bytes preceded by its length. *)
Definition enc_run (bs : bytes) : bytes := enc_N (N.of_nat (length bs)) ++ bs.

Definition dec_run (bs : bytes) : option (bytes * bytes) :=
  match dec_N bs with
  | None => None
  | Some (n, rest) =>
      if decide (N.to_nat n ≤ length rest)%nat
      then Some (take (N.to_nat n) rest, drop (N.to_nat n) rest)
      else None
  end.

(** The length of a file name, in one octet. *)
Definition name_octet (n : nat) : byte := default x00 (Byte.of_nat n).

(** The literal-data packet: tag, format octet, the file name (its first
    255 bytes) after its length in one octet, the time and the data. *)
Definition literal_packet (isBinary : bool) (fileName : string) (time : N)
    (data : bytes) : bytes :=
  let name := list_byte_of_string (strings.upto 255 fileName) in
  xcb :: (if isBinary then x62 else x74)
      :: name_octet (length name) :: name ++ enc_N time ++ data.

Definition parse_literal (bs : bytes) : option (LiteralData * bytes) :=
  match bs with
  | tag :: flag :: n :: rest =>
      if decide (tag = xcb) then
        if decide (Byte.to_nat n ≤ length rest)%nat then
          match dec_N (drop (Byte.to_nat n) rest) with
          | None => None
          | Some (time, data) =>
              Some ({| ld_IsBinary := bool_decide (flag = x62);
                       ld_FileName := string_of_list_byte (take (Byte.to_nat n) rest);
                       ld_Time := time |}, data)
          end
        else None
      else None
  | _ => None
  end.

Definition send (k : WriterKind N) (data : bytes) : result bytes :=
  match k with
  | BufferWriter => Ok data
  | SymmetricallyEncryptedWriter c key _ => Ok (xd2 :: enc_N c ++ enc_run key ++ data)
  | CompressedWriter _ _ => Ok (xc8 :: data)
  | LiteralWriter isBinary fileName time =>
      Ok (literal_packet isBinary fileName time data)
  | SignatureWriter signed hints _ =>
      Ok (xc4 :: enc_N signed
            ++ literal_packet (fh_IsBinary hints) (fh_FileName hints)
                 (Z.to_N (fh_ModTime hints)) data)
  end.

Definition accept (k : WriterKind N) : option error :=
  match k with
  | SymmetricallyEncryptedWriter c key _ =>
      if decide (packet.KeySize c = length key) then None
      else Some (errorString "openpgp: invalid argument: bad key length")
  | _ => None
  end.

Definition first_packet (bs : bytes) : result Packet :=
  match bs with
  | [] => Err (errorString "EOF")
  | tag :: body =>
      if decide (tag = xd2)
      then Ok (SymmetricallyEncryptedPacket {| MDC := true; contents := body |})
      else Ok (OtherPacket (Byte.to_N tag) body)
  end.

Definition open (p : SymmetricallyEncrypted) (c : CipherFunction)
    (key : bytes) : result Stream :=
  match dec_N (contents p) with
  | None => Err (errorString "openpgp: invalid data: truncated packet")
  | Some (c', rest) =>
      match dec_run rest with
      | None => Err (errorString "openpgp: invalid data: truncated packet")
      | Some (key', data) =>
          if decide (c' = c ∧ key' = key) then Ok (stream_of data)
          else Err (errorString "openpgp: incorrect key")
      end
  end.

Definition skip_compressed (bs : bytes) : bytes :=
  match bs with
  | tag :: rest => if decide (tag = xc8) then rest else bs
  | [] => bs
  end.

Definition parse_signer (bs : bytes) : option (option N * bytes) :=
  match bs with
  | tag :: rest =>
      if decide (tag = xc4) then
        match dec_N rest with
        | None => None
        | Some (id, rest) => Some (Some id, rest)
        end
      else Some (None, bs)
  | [] => Some (None, bs)
  end.

Definition read_message (r : Stream) (keyring : list N) (config : Config)
    : result MessageDetails :=
  match stream_err r with
  | Some e => Err e
  | None =>
      match parse_signer (skip_compressed (stream_data r)) with
      | None => Err (errorString "openpgp: invalid data: truncated packet")
      | Some (signer, rest) =>
          match parse_literal rest with
          | None => Err (errorString "openpgp: invalid data: no literal data")
          | Some (ld, data) =>
              Ok {| IsSigned := bool_decide (signer ≠ None);
                    SignedByKeyId := default 0%N signer;
                    md_LiteralData := ld;
                    UnverifiedBody := stream_of data;
                    SignatureError := None;
                    md_Signature := None |}
          end
      end
  end.

Definition first_entity (signKeyRing : option (KeyRing N)) : result N :=
  match signKeyRing with
  | Some {| entities := e :: _ |} => Ok e
  | _ => Err (errorString "gopenpgp: cannot sign message, unable to unlock signer key")
  end.

#[export] Instance library : PacketLibrary := {|
  Entity := N;
  setup := accept;
  writeErr := λ _ _ _, None;
  emit := send;
  Next := first_packet;
  symDecrypt := open;
  ReadMessage := read_message;
  hasKeyId := λ keyring id, bool_decide (id ∈ keyring);
  getTimeGenerator := λ _, 0%Z;
  getSigningEntity := first_entity;
|}.

(** An entropy source that delivers bytes of value 7. *)
Definition sevens : Reader := λ n, Ok (replicate n x07).

Definition aes256_key : bytes := replicate 32 x2a.
Definition sk : SessionKey := {| Key := aes256_key; Algo := constants.AES256 |}.
Definition hello : PlainMessage :=
  {| Data := list_byte_of_string "hello world";
     TextType := true;
     Filename := "";
     Time := 0 |}.

(** A string of [n] letters a. *)
Fixpoint letters (n : nat) : string :=
  match n with
  | 0 => EmptyString
  | S n => String "a" (letters n)
  end.

(** A binary message under a file name of 300 bytes. *)
Definition long_name : PlainMessage :=
  {| Data := [x01; x02; x03];
     TextType := false;
     Filename := letters 300;
     Time := 5 |}.

(** [hello] encrypted with [sk]. *)
Definition sealed_hello : bytes :=
  Eval vm_compute in
    match Encrypt sk hello with
    | Ok ct => ct
    | Err _ => []
    end.

(** A key set with one key, which signed nothing. *)
Definition bystander : KeyRing N := {| entities := [5%N] |}.
End Reference.

(** ** The chain that an encryption is expected to leave in the store *)

Section Layers.
Context {lib : PacketLibrary}.

(** The innermost writer, the one the plaintext is written to: the
    signer when a signing entity is given, else the literal-data writer. *)
Definition innermost (message : PlainMessage) (signEntity : option Entity)
    (config : Config) : WriterKind Entity :=
  match signEntity with
  | Some signEntity =>
      SignatureWriter signEntity
        {| fh_IsBinary := IsBinary message;
           fh_FileName := Filename message;
           fh_ModTime := Z.of_N (Time message) |}
        config
  | None => LiteralWriter (IsBinary message) (Filename message) (Time message)
  end.

Definition compressing (config : Config) : bool :=
  bool_decide (packet_config.Compression config ≠ packet_config.CompressionNone).

(** The second result of a decryption that succeeded: nothing without a
    verification key set, else the outcome of the time check followed by
    the verification. *)
Definition signature_status (md : MessageDetails)
    (verifyKeyRing : option (KeyRing Entity)) (verifyTime : Z) : option error :=
  match verifyKeyRing with
  | Some verifyKeyRing =>
      verifyDetailsSignature (processSignatureExpiration md verifyTime) verifyKeyRing
  | None => None
  end.

(** The plaintext rebuilt from the literal data of a message and the
    bytes of its body. *)
Definition plaintext_of (md : MessageDetails) (body : bytes) : PlainMessage :=
  {| Data := body;
     TextType := negb (ld_IsBinary (md_LiteralData md));
     Filename := ld_FileName (md_LiteralData md);
     Time := ld_Time (md_LiteralData md) |}.

(** A closed writer of kind [k] on the writer [below] that was given
    [input] in all. *)
Definition finished (k : WriterKind Entity) (below : option nat)
    (input : bytes) : Writer :=
  {| kind := k; under := below; input := input; closed := true |}.
End Layers.

(** The supported algorithm names. *)
Definition supported_algorithms : list string :=
  [ constants.ThreeDES; constants.TripleDES; constants.CAST5;
    constants.AES128; constants.AES192; constants.AES256 ].

(** ** Session keys taken from an encrypted key, on the memory

    [newSessionKeyFromEncrypted] on the store of module [Slices]: the key
    of the new session key is the slice [ek.Key] itself. *)

Module Slices_encrypted.
Import Slices.

(** [packet.EncryptedKey] with its key as a slice. *)
Record EncryptedKey : Type := {
  CipherFunc : CipherFunction;
  Key : slice;
}.

(** [checkSize]: [len(sk.Key)] is the length of the slice. *)
Definition checkSize (sk : SessionKey) : option error :=
  match symKeyAlgos !! Algo sk with
  | None => Some (errors.New "unknown symmetric key algorithm")
  | Some cf =>
      if decide (packet.KeySize cf ≠ len (Slices.Key sk))
      then Some (errors.New "wrong session key size")
      else None
  end.

Definition newSessionKeyFromEncrypted (order : list (string * CipherFunction))
    (ek : EncryptedKey) : result SessionKey :=
  let algo := range_find order (CipherFunc ek) "" in
  if decide (algo = "") then
    Err (errors.New ("gopenpgp: unsupported cipher function: " +:+ pretty (CipherFunc ek)))
  else
    let sk := {| Slices.Key := Key ek; Algo := algo |} in
    match checkSize sk with
    | Some err => Err (errors.Wrap err "gopenpgp: unable to decrypt session key")
    | None => Ok sk
    end.
End Slices_encrypted.

(** ** Messages of the errors *)

(** The context messages under which [encryptWithSessionKey] and
    [encryptStreamWithSessionKey] wrap the errors of the library. *)
Definition encrypt_contexts : list string :=
  [ "gopenpgp: unable to encrypt";
    "gopenpgp: error in compression";
    "gopenpgp: unable to sign";
    "gopenpgp: unable to serialize";
    "gopenpgp: error in writing signed message";
    "gopenpgp: error in closing signing writer";
    "gopenpgp: error in writing message";
    "gopenpgp: error in closing encryption writer" ].

(** The context messages of [DecryptAndVerify] and
    [decryptStreamWithSessionKey]. *)
Definition decrypt_contexts : list string :=
  [ "gopenpgp: unable to read symmetric packet";
    "gopenpgp: unable to decrypt with session key";
    "gopenpgp: unable to decrypt symmetric packet";
    "gopenpgp: unable to decode symmetric packet";
    "gopenpgp: error in reading message body" ].

(** A session key for an algorithm that the registry does not know. *)
Definition blowfish_key : SessionKey :=
  {| Key := replicate 16 x2a; Algo := "blowfish" |}.

Section Fresh_writers.
Context {lib : PacketLibrary}.


(** The configuration that [Encrypt] and [EncryptAndSign] build for the
    cipher function [dc]. *)
Definition plain_config (dc : CipherFunction) : Config :=
  {| cfg_Time := Some getTimeGenerator;
     DefaultCipher := dc;
     DefaultCompressionAlgo := 0%N;
     cfg_CompressionConfig := None |}.
End Fresh_writers.

(** A line: a string without line feed. *)
Definition is_line (s : string) : Prop := strings.CountByte s internal.LF = 0.

(** * Properties *)

(** ** The registry *)

Lemma symKeyAlgos_lookup algo cf :
  symKeyAlgos !! algo = Some cf ↔ (algo, cf) ∈ symKeyAlgos_entries.
Proof.
  unfold symKeyAlgos. rewrite <- elem_of_list_to_map; [done |].
  by apply (bool_decide_unpack _).
Qed.

Lemma symKeyAlgos_supported algo :
  is_Some (symKeyAlgos !! algo) ↔ algo ∈ supported_algorithms.
Proof.
  split.
  - intros [cf Hcf]. apply symKeyAlgos_lookup in Hcf.
    apply (list_elem_of_fmap_2 fst) in Hcf. exact Hcf.
  - intros Hin. unfold supported_algorithms in Hin.
    repeat (apply elem_of_cons in Hin as [-> | Hin]; [eexists; reflexivity |]).
    by apply elem_of_nil in Hin.
Qed.

Lemma symKeyAlgos_unsupported algo :
  symKeyAlgos !! algo = None ↔ algo ∉ supported_algorithms.
Proof.
  rewrite <- symKeyAlgos_supported, eq_None_not_Some. done.
Qed.

Example symKeyAlgos_aes256 : symKeyAlgos !! "aes256" = Some 9%N.
Proof. reflexivity. Qed.

(** ** Generated keys *)

Lemma copy_length (dst src : bytes) : length (copy dst src) = length dst.
Proof.
  unfold copy. rewrite length_take, length_app, length_drop. lia.
Qed.

Lemma clone_eq (input : bytes) : clone input = input.
Proof.
  unfold clone, copy, make.
  rewrite length_replicate, drop_ge by (rewrite length_replicate; lia).
  rewrite app_nil_r. apply take_ge. lia.
Qed.

Lemma RandomToken_length random size token :
  RandomToken random size = Ok token → length token = size.
Proof.
  unfold RandomToken, ReadFull, make. rewrite length_replicate.
  destruct (random size) as [bs | e]; [| discriminate].
  intros [= <-]. by rewrite copy_length, length_replicate.
Qed.

Lemma RandomToken_delivers random size bs :
  random size = Ok bs → ∃ token, RandomToken random size = Ok token.
Proof.
  intros Hr. unfold RandomToken, ReadFull, make.
  rewrite length_replicate, Hr. eauto.
Qed.

Lemma checkSize_None sk :
  checkSize sk = None ↔
  ∃ cf, symKeyAlgos !! Algo sk = Some cf ∧ length (Key sk) = packet.KeySize cf.
Proof.
  unfold checkSize. destruct (symKeyAlgos !! Algo sk) as [cf |].
  - case_decide as Hn.
    + split; [discriminate |]. intros (cf' & [= <-] & Hlen). congruence.
    + split; [| done]. intros _. exists cf. split; [done |].
      destruct (decide (length (Key sk) = packet.KeySize cf)); [done |]. congruence.
  - split; [discriminate |]. by intros (cf & ? & _).
Qed.

Lemma GenerateSessionKeyAlgo_Ok random algo sk :
  GenerateSessionKeyAlgo random algo = Ok sk →
  ∃ cf, symKeyAlgos !! algo = Some cf ∧ Algo sk = algo
        ∧ length (Key sk) = packet.KeySize cf.
Proof.
  unfold GenerateSessionKeyAlgo.
  destruct (symKeyAlgos !! algo) as [cf |]; [| discriminate].
  destruct (RandomToken random (packet.KeySize cf)) as [r | e] eqn:Hr; [| discriminate].
  intros [= <-]. exists cf. repeat split. simpl. by eapply RandomToken_length.
Qed.

(** C4. For every algorithm name of the supported set,
    [GenerateSessionKeyAlgo] returns, once the entropy source has delivered
    the bytes asked of it, a session key for that algorithm whose key has
    the registry key size and which passes [checkSize]; for every other
    name it returns the unknown-algorithm error and no key, whatever the
    entropy source does. *)
Theorem GenerateSessionKeyAlgo_key_size (random : Reader) (algo : string) :
  (algo ∈ supported_algorithms →
   ∃ cf, symKeyAlgos !! algo = Some cf ∧
     ∀ bs, random (packet.KeySize cf) = Ok bs →
       ∃ sk, GenerateSessionKeyAlgo random algo = Ok sk
             ∧ Algo sk = algo
             ∧ length (Key sk) = packet.KeySize cf
             ∧ checkSize sk = None)
  ∧ (algo ∉ supported_algorithms →
     GenerateSessionKeyAlgo random algo
     = Err (errors.New "gopenpgp: unknown symmetric key generation algorithm")).
Proof.
  split.
  - intros [cf Hcf]%symKeyAlgos_supported. exists cf. split; [done |].
    intros bs [token Htok]%RandomToken_delivers.
    assert (GenerateSessionKeyAlgo random algo = Ok {| Key := token; Algo := algo |}) as Hg.
    { unfold GenerateSessionKeyAlgo. by rewrite Hcf, Htok. }
    eexists. split; [exact Hg |].
    destruct (GenerateSessionKeyAlgo_Ok _ _ _ Hg) as (cf' & Hcf' & Ha & Hlen).
    simpl in *. assert (cf' = cf) as -> by congruence.
    repeat split; [done |]. apply checkSize_None. exists cf. by simpl.
  - intros Hn%symKeyAlgos_unsupported. unfold GenerateSessionKeyAlgo. by rewrite Hn.
Qed.

Lemma GenerateSessionKeyAlgo_key_size_witness :
  constants.AES192 ∈ supported_algorithms
  ∧ Reference.sevens 24 = Ok (replicate 24 x07)
  ∧ ∃ sk, GenerateSessionKeyAlgo Reference.sevens constants.AES192 = Ok sk
          ∧ length (Key sk) = 24 ∧ checkSize sk = None.
Proof.
  assert (constants.AES192 ∈ supported_algorithms) as Hin
    by (apply (bool_decide_unpack _); vm_compute; reflexivity).
  split; [exact Hin |]. split; [reflexivity |].
  destruct (GenerateSessionKeyAlgo_key_size Reference.sevens constants.AES192) as [Hs _].
  destruct (Hs Hin) as (cf & Hcf & Hgen).
  assert (cf = packet.CipherAES192) as -> by (vm_compute in Hcf; by injection Hcf as <-).
  destruct (Hgen (replicate 24 x07) eq_refl) as (sk & Hsk & _ & Hlen & Hck).
  exists sk. repeat split; assumption.
Defined.

Lemma GenerateSessionKeyAlgo_entropy_failure random algo cf e :
  symKeyAlgos !! algo = Some cf →
  random (packet.KeySize cf) = Err e →
  GenerateSessionKeyAlgo random algo
  = Err (errors.Wrap e "gopenpgp: error in generating random token").
Proof.
  intros Hcf He. unfold GenerateSessionKeyAlgo, RandomToken, ReadFull, make.
  by rewrite Hcf, length_replicate, He.
Qed.

(** ** The reverse lookup *)

Lemma range_find_no_match order cipher algo :
  (∀ k v, (k, v) ∈ order → v ≠ cipher) →
  range_find order cipher algo = algo.
Proof.
  induction order as [| [k v] rest IH]; intros Hne; [done |].
  simpl. case_decide as Heq.
  - exfalso. eapply Hne; [apply list_elem_of_here | done].
  - apply IH. intros k' v' Hin. eapply Hne. by apply list_elem_of_further.
Qed.

Lemma range_find_match order cipher algo :
  (∃ k, (k, cipher) ∈ order) →
  (range_find order cipher algo, cipher) ∈ order.
Proof.
  induction order as [| [k v] rest IH]; intros [k' Hin].
  - by apply elem_of_nil in Hin.
  - simpl. case_decide as Heq.
    + subst. apply list_elem_of_here.
    + apply list_elem_of_further, IH.
      apply elem_of_cons in Hin as [[= -> ->] | Hin]; [done | eauto].
Qed.

Lemma range_order_lookup order k v :
  range_order order → (k, v) ∈ order ↔ symKeyAlgos !! k = Some v.
Proof.
  unfold range_order. intros ->. apply elem_of_map_to_list.
Qed.

(** C9. For a cipher identifier that no entry of the registry carries,
    [getAlgo] returns the AES-256 name, in whatever order the map is
    ranged over; it has no error result. *)
Theorem getAlgo_unregistered (order : list (string * CipherFunction))
    (cipher : CipherFunction) :
  range_order order →
  ¬ registered cipher →
  getAlgo order cipher = constants.AES256.
Proof.
  intros Hord Hnot. unfold getAlgo. apply range_find_no_match.
  intros k v Hin ->. apply Hnot. exists k. by apply (range_order_lookup order).
Qed.

Lemma registered_iff cipher :
  registered cipher ↔ cipher ∈ symKeyAlgos_entries.*2.
Proof.
  unfold registered. split.
  - intros [algo Hl%symKeyAlgos_lookup].
    by apply (list_elem_of_fmap_2 snd) in Hl.
  - intros ([algo cf] & -> & Hin)%list_elem_of_fmap.
    exists algo. by apply symKeyAlgos_lookup.
Qed.

Lemma blowfish_unregistered : ¬ registered 4%N.
Proof.
  rewrite registered_iff. apply (bool_decide_unpack _). vm_compute. exact I.
Qed.

Lemma getAlgo_unregistered_witness :
  range_order (map_to_list symKeyAlgos)
  ∧ ¬ registered 4%N
  ∧ getAlgo (map_to_list symKeyAlgos) 4%N = "aes256".
Proof.
  assert (range_order (map_to_list symKeyAlgos)) as Hord by (unfold range_order; reflexivity).
  split; [exact Hord |]. split; [exact blowfish_unregistered |].
  exact (getAlgo_unregistered (map_to_list symKeyAlgos) 4%N Hord blowfish_unregistered).
Defined.

(** A registered identifier is mapped to one of its names; for 3DES, which
    has two, the order of the range decides which. *)
Lemma getAlgo_registered order cipher :
  range_order order → registered cipher →
  symKeyAlgos !! getAlgo order cipher = Some cipher.
Proof.
  intros Hord [k Hk]. apply (range_order_lookup order); [done |].
  apply range_find_match. exists k. by apply (range_order_lookup order).
Qed.

(** ** The writer chain of an encryption *)

(** Unfold the store monad and the constructors of the library. *)
Ltac unfold_composer :=
  unfold SerializeSymmetricallyEncrypted, SerializeCompressed, SerializeLiteral,
    Sign, construct, Write, Close, Bytes, NewBuffer, new_writer,
    bind, wrapping, ret, fail;
  simpl.

(** Split on the next call into the library; a failed call ends the run
    with an error. *)
Ltac library_step :=
  match goal with
  | |- context [match setup ?k with _ => _ end] =>
      destruct (setup k) eqn:?
  | |- context [match writeErr ?k ?a ?b with _ => _ end] =>
      destruct (writeErr k a b) eqn:?
  | |- context [match emit ?k ?i with _ => _ end] =>
      destruct (emit k i) eqn:?
  end;
  unfold_composer; try solve [intro; discriminate].

Section Composer_properties.
Context {lib : PacketLibrary}.

(** What a run of [encryptWithSessionKey] that reaches its end has
    done. *)
Lemma encryptWithSessionKey_run_Ok (message : PlainMessage) (sk : SessionKey)
    (signEntity : option Entity) (config : Config) (out : bytes) (h : Store) :
  encryptWithSessionKey_run message sk signEntity config [] = Ok (out, h) →
  ∃ inner mid,
    setup (SymmetricallyEncryptedWriter (packet_config.Cipher config) (Key sk) config)
    = None
    ∧ emit (innermost message signEntity config) (GetBinary message) = Ok inner
    ∧ (if compressing config
       then emit (CompressedWriter (packet_config.Compression config)
                    (cfg_CompressionConfig config)) inner = Ok mid
       else mid = inner)
    ∧ emit (SymmetricallyEncryptedWriter (packet_config.Cipher config) (Key sk) config)
        mid = Ok out
    ∧ h = finished BufferWriter None out
          :: finished (SymmetricallyEncryptedWriter (packet_config.Cipher config)
                         (Key sk) config) (Some 0) mid
          :: (if compressing config
              then [ finished (CompressedWriter (packet_config.Compression config)
                                 (cfg_CompressionConfig config)) (Some 1) inner;
                     finished (innermost message signEntity config) (Some 2)
                       (GetBinary message) ]
              else [ finished (innermost message signEntity config) (Some 1)
                       (GetBinary message) ]).
Proof.
  unfold encryptWithSessionKey_run, encryptStreamWithSessionKey, compressing.
  unfold_composer.
  library_step.
  case_decide as Hc.
  - rewrite (bool_decide_eq_true_2 _ Hc). library_step.
    destruct signEntity as [e |]; simpl; repeat library_step;
      intros [= <- <-]; do 2 eexists; repeat split; try eassumption.
  - rewrite bool_decide_eq_false_2 by (intros Hn; apply Hn, Hc).
    destruct signEntity as [e |]; simpl; repeat library_step;
      intros [= <- <-]; do 2 eexists; repeat split; try eassumption.
Qed.



(** The unsigned, uncompressed path runs to its end when the library
    accepts the two writers and what is written to them. *)
Lemma encryptWithSessionKey_literal message sk config lit ct :
  packet_config.Compression config = packet_config.CompressionNone →
  let se := SymmetricallyEncryptedWriter (packet_config.Cipher config) (Key sk) config in
  let ld := LiteralWriter (IsBinary message) (Filename message) (Time message) in
  setup se = None → setup ld = None →
  writeErr ld [] (GetBinary message) = None →
  emit ld (GetBinary message) = Ok lit →
  writeErr se [] lit = None →
  emit se lit = Ok ct →
  encryptWithSessionKey message sk None config = Ok ct.
Proof.
  intros Hc se ld. subst se ld.
  unfold encryptWithSessionKey, encryptWithSessionKey_run, encryptStreamWithSessionKey.
  generalize (packet_config.Cipher config) as c.
  intros c Hse Hld Hwl Hel Hws Hes.
  unfold_composer. rewrite Hse. unfold_composer.
  rewrite decide_False by (intros Hn; apply Hn, Hc). unfold_composer.
  rewrite Hld. unfold_composer. rewrite Hwl. unfold_composer.
  rewrite Hel. unfold_composer. rewrite Hws. unfold_composer.
  rewrite Hes. unfold_composer. reflexivity.
Qed.
End Composer_properties.


(** ** Encryption followed by decryption *)

Lemma registered_nonzero cf : registered cf → cf ≠ 0%N.
Proof.
  rewrite registered_iff. intros Hin ->. revert Hin.
  apply (bool_decide_unpack _). vm_compute. exact I.
Qed.

Lemma Cipher_registered time cf algo cc :
  registered cf →
  packet_config.Cipher {| cfg_Time := time; DefaultCipher := cf;
                          DefaultCompressionAlgo := algo;
                          cfg_CompressionConfig := cc |} = cf.
Proof.
  intros Hreg%registered_nonzero. unfold packet_config.Cipher. simpl.
  by rewrite decide_False.
Qed.

Lemma upto_all n s : (String.length s ≤ n)%nat → strings.upto n s = s.
Proof.
  revert n. induction s as [| a s IH]; intros n Hn; [by destruct n |].
  destruct n as [| n]; simpl in Hn; [lia |].
  simpl. f_equal. apply IH. lia.
Qed.

Lemma upto_length n s : (String.length (strings.upto n s) ≤ n)%nat.
Proof.
  revert s. induction n as [| n IH]; intros s; [done |].
  destruct s as [| a s]; simpl; [lia |]. specialize (IH s). lia.
Qed.

Section Round_trip.
Context {lib : PacketLibrary} {laws : PacketLibraryLaws lib}.

(** What [Decrypt] returns for what [Encrypt] returned: the plaintext with
    the first 255 bytes of its file name. *)
Lemma Encrypt_Decrypt_name_limit (P : PlainMessage) (K : SessionKey)
    (cf : CipherFunction) :
  symKeyAlgos !! Algo K = Some cf →
  packet.KeySize cf = length (Key K) →
  ∃ ct, Encrypt K P = Ok ct
        ∧ Decrypt K ct
          = (Some {| Data := Data P;
                     TextType := TextType P;
                     Filename := strings.upto 255 (Filename P);
                     Time := Time P |}, None).
Proof.
  intros Hcf Hlen.
  assert (registered cf) as Hreg by (by exists (Algo K)).
  set (config := {| cfg_Time := Some getTimeGenerator; DefaultCipher := cf;
                    DefaultCompressionAlgo := 0%N;
                    cfg_CompressionConfig := None |}).
  set (config' := {| cfg_Time := Some getTimeGenerator; DefaultCipher := 0%N;
                     DefaultCompressionAlgo := 0%N;
                     cfg_CompressionConfig := None |}).
  destruct (literal_inverse (IsBinary P) (strings.upto 255 (Filename P)) (Time P)
              (GetBinary P) [] config' (upto_length 255 (Filename P)))
    as (lit & md & Hlit & Hread & Hbody & Hld).
  rewrite <- literal_name_limit in Hlit.
  destruct (symmetric_inverse cf (Key K) config lit Hreg Hlen)
    as (ct & p & Hct & Hnext & Hdec).
  assert (packet_config.Cipher config = cf) as Hcipher
    by (by apply Cipher_registered).
  exists ct. split.
  - unfold Encrypt, GetCipherFunc. rewrite Hcf. fold config.
    apply (encryptWithSessionKey_literal P K config lit ct); rewrite ?Hcipher.
    + reflexivity.
    + by apply symmetric_setup.
    + apply literal_setup.
    + apply literal_write.
    + exact Hlit.
    + apply symmetric_write.
    + exact Hct.
  - unfold Decrypt, DecryptAndVerify, decryptStreamWithSessionKey, GetCipherFunc.
    rewrite Hnext, Hcf, Hdec. fold config'. simpl. rewrite Hread.
    unfold ReadFrom. rewrite Hbody, Hld. simpl.
    unfold IsBinary, GetBinary. by rewrite negb_involutive.
Qed.

(** C1, as amended. For every plaintext whose file name has at most 255
    bytes and every session key whose algorithm is in the registry and
    whose key has the size of that algorithm, [Encrypt] returns an
    encrypted message, and [Decrypt] of that message with the same key
    returns, without error, a plaintext with the same content, binary
    flag, file name and modification time: the same [PlainMessage]. The
    packet library is taken to meet [PacketLibraryLaws]. *)
Theorem Encrypt_Decrypt_round_trip (P : PlainMessage) (K : SessionKey)
    (cf : CipherFunction) :
  symKeyAlgos !! Algo K = Some cf →
  packet.KeySize cf = length (Key K) →
  (String.length (Filename P) ≤ 255)%nat →
  ∃ ct, Encrypt K P = Ok ct ∧ Decrypt K ct = (Some P, None).
Proof.
  intros Hcf Hlen Hname.
  destruct (Encrypt_Decrypt_name_limit P K cf Hcf Hlen) as (ct & Henc & Hdec).
  exists ct. split; [exact Henc |].
  rewrite Hdec, (upto_all 255 (Filename P) Hname). by destruct P.
Qed.
End Round_trip.

(** ** The reference library meets the laws *)

Module Reference_laws.
Import Reference.

Lemma dec_enc_pos p rest : dec_pos (enc_pos p ++ rest) = Some (p, rest).
Proof.
  induction p as [p IH | p IH |]; simpl; [by rewrite IH .. | done].
Qed.

Lemma dec_enc_N n rest : dec_N (enc_N n ++ rest) = Some (n, rest).
Proof.
  destruct n as [| p]; [done |].
  unfold dec_N, enc_N. pose proof (dec_enc_pos p rest) as Hp.
  destruct p; simpl in *; by rewrite ?Hp.
Qed.

Lemma dec_enc_run bs rest : dec_run (enc_run bs ++ rest) = Some (bs, rest).
Proof.
  unfold dec_run, enc_run. rewrite <- app_assoc, dec_enc_N, Nat2N.id.
  rewrite decide_True by (rewrite length_app; lia).
  by rewrite take_app_length, drop_app_length.
Qed.

Lemma list_byte_of_string_length s :
  length (list_byte_of_string s) = String.length s.
Proof.
  unfold list_byte_of_string. rewrite length_map.
  induction s as [| a s IH]; [done |]. simpl. by rewrite IH.
Qed.

Lemma name_octet_to_nat n : (n ≤ 255)%nat → Byte.to_nat (name_octet n) = n.
Proof.
  intros Hn. unfold name_octet.
  destruct (Byte.of_nat n) as [b |] eqn:Hb.
  - by apply Byte.to_of_nat.
  - apply Byte.of_nat_None_iff in Hb. lia.
Qed.

Lemma parse_literal_packet isBinary fileName time data :
  parse_literal (literal_packet isBinary fileName time data)
  = Some ({| ld_IsBinary := isBinary;
             ld_FileName := strings.upto 255 fileName;
             ld_Time := time |},
          data).
Proof.
  unfold parse_literal, literal_packet.
  set (name := list_byte_of_string (strings.upto 255 fileName)).
  assert (length name ≤ 255)%nat as Hname.
  { subst name. rewrite list_byte_of_string_length. apply upto_length. }
  cbv zeta. rewrite decide_True by done.
  rewrite (name_octet_to_nat _ Hname).
  rewrite decide_True by (rewrite length_app; lia).
  rewrite take_app_length, drop_app_length, dec_enc_N.
  subst name. rewrite string_of_list_byte_of_string.
  by destruct isBinary.
Qed.

Lemma read_message_literal isBinary fileName time data keyring config :
  read_message (stream_of (literal_packet isBinary fileName time data)) keyring config
  = Ok {| IsSigned := false;
          SignedByKeyId := 0%N;
          md_LiteralData := {| ld_IsBinary := isBinary;
                               ld_FileName := strings.upto 255 fileName;
                               ld_Time := time |};
          UnverifiedBody := stream_of data;
          SignatureError := None;
          md_Signature := None |}.
Proof.
  unfold read_message.
  change (parse_signer (skip_compressed (stream_data (stream_of
            (literal_packet isBinary fileName time data)))))
    with (Some (@None N, literal_packet isBinary fileName time data)).
  cbv iota beta. simpl stream_err. cbv iota.
  by rewrite parse_literal_packet.
Qed.

Lemma open_sealed c key lit :
  open {| MDC := true; contents := enc_N c ++ enc_run key ++ lit |} c key
  = Ok (stream_of lit).
Proof.
  unfold open. simpl contents. rewrite dec_enc_N, dec_enc_run.
  by rewrite decide_True.
Qed.

Lemma upto_upto n s : strings.upto n (strings.upto n s) = strings.upto n s.
Proof. apply upto_all, upto_length. Qed.

Lemma literal_packet_name_limit isBinary fileName time data :
  literal_packet isBinary fileName time data
  = literal_packet isBinary (strings.upto 255 fileName) time data.
Proof. unfold literal_packet. by rewrite upto_upto. Qed.

Lemma lawful : PacketLibraryLaws library.
Proof.
  split.
  - intros c key config _ Hlen. simpl. by rewrite decide_True.
  - done.
  - done.
  - done.
  - intros isBinary fileName time data.
    change (Ok (literal_packet isBinary fileName time data)
            = Ok (literal_packet isBinary (strings.upto 255 fileName) time data)).
    by rewrite <- literal_packet_name_limit.
  - intros c key config data _ _.
    exists (xd2 :: enc_N c ++ enc_run key ++ data).
    exists {| MDC := true; contents := enc_N c ++ enc_run key ++ data |}.
    split_and!; [reflexivity | reflexivity | apply open_sealed].
  - intros isBinary fileName time data keyring config Hname.
    exists (literal_packet isBinary fileName time data). eexists. split_and!.
    + reflexivity.
    + apply read_message_literal.
    + reflexivity.
    + cbn [md_LiteralData]. by rewrite (upto_all 255 fileName Hname).
Qed.
End Reference_laws.

Lemma Encrypt_Decrypt_round_trip_witness :
  symKeyAlgos !! Algo Reference.sk = Some packet.CipherAES256
  ∧ packet.KeySize packet.CipherAES256 = length (Key Reference.sk)
  ∧ (String.length (Filename Reference.hello) ≤ 255)%nat
  ∧ ∃ ct, Encrypt (lib := Reference.library) Reference.sk Reference.hello = Ok ct
          ∧ Decrypt (lib := Reference.library) Reference.sk ct
            = (Some Reference.hello, None).
Proof.
  assert (symKeyAlgos !! Algo Reference.sk = Some packet.CipherAES256) as Hcf
    by reflexivity.
  assert (packet.KeySize packet.CipherAES256 = length (Key Reference.sk)) as Hlen
    by reflexivity.
  assert (String.length (Filename Reference.hello) ≤ 255)%nat as Hname
    by (simpl; lia).
  split; [exact Hcf |]. split; [exact Hlen |]. split; [exact Hname |].
  exact (Encrypt_Decrypt_round_trip (laws := Reference_laws.lawful)
           Reference.hello Reference.sk packet.CipherAES256 Hcf Hlen Hname).
Defined.

(** C1, as stated, fails for a file name of more than 255 bytes: the
    message [long_name], whose file name has 300 bytes, is encrypted
    without error, and decrypting the result with the same key returns a
    message whose file name has 255 bytes, not the message that was
    encrypted. *)
Lemma Encrypt_Decrypt_long_name_counterexample :
  symKeyAlgos !! Algo Reference.sk = Some packet.CipherAES256
  ∧ packet.KeySize packet.CipherAES256 = length (Key Reference.sk)
  ∧ String.length (Filename Reference.long_name) = 300
  ∧ ∃ ct returned,
      Encrypt (lib := Reference.library) Reference.sk Reference.long_name = Ok ct
      ∧ Decrypt (lib := Reference.library) Reference.sk ct = (Some returned, None)
      ∧ String.length (Filename returned) = 255
      ∧ returned ≠ Reference.long_name.
Proof.
  split_and!; [reflexivity | reflexivity | by vm_compute |].
  destruct (Encrypt_Decrypt_name_limit (laws := Reference_laws.lawful)
              Reference.long_name Reference.sk packet.CipherAES256 eq_refl eq_refl)
    as (ct & Henc & Hdec).
  eexists ct, _. split_and!; [exact Henc | exact Hdec | by vm_compute |].
  intros Heq. apply (f_equal (λ m, String.length (Filename m))) in Heq.
  vm_compute in Heq. discriminate Heq.
Qed.

(** ** Decryption and signature status *)

Section Decryptor_properties.
Context {lib : PacketLibrary}.

Lemma processSignatureExpiration_LiteralData md verifyTime :
  md_LiteralData (processSignatureExpiration md verifyTime) = md_LiteralData md.
Proof.
  unfold processSignatureExpiration.
  repeat (case_decide || case_match); reflexivity.
Qed.

(** The three ways [DecryptAndVerify] ends. *)
Lemma DecryptAndVerify_cases sk dataPacket verifyKeyRing verifyTime :
  match decryptStreamWithSessionKey sk dataPacket verifyKeyRing with
  | Err e => DecryptAndVerify sk dataPacket verifyKeyRing verifyTime = (None, Some e)
  | Ok md =>
      match ReadFrom (UnverifiedBody md) with
      | Err e =>
          DecryptAndVerify sk dataPacket verifyKeyRing verifyTime
          = (None, Some (errors.Wrap e "gopenpgp: error in reading message body"))
      | Ok body =>
          DecryptAndVerify sk dataPacket verifyKeyRing verifyTime
          = (Some (plaintext_of md body), signature_status md verifyKeyRing verifyTime)
      end
  end.
Proof.
  unfold DecryptAndVerify, signature_status, plaintext_of.
  destruct (decryptStreamWithSessionKey _ _ _) as [md | e]; [| done].
  destruct (ReadFrom _) as [body | e]; [| done].
  destruct verifyKeyRing as [kr |]; [| done].
  by rewrite processSignatureExpiration_LiteralData.
Qed.

Lemma signature_status_shape md verifyKeyRing verifyTime :
  signature_status md verifyKeyRing verifyTime = None
  ∨ ∃ status msg,
      signature_status md verifyKeyRing verifyTime
      = Some (SignatureVerificationError status msg).
Proof.
  unfold signature_status, verifyDetailsSignature.
  destruct verifyKeyRing as [kr |]; [| by left].
  repeat case_match; eauto.
Qed.

Lemma decryptStreamWithSessionKey_error sk dataPacket verifyKeyRing e :
  decryptStreamWithSessionKey sk dataPacket verifyKeyRing = Err e →
  ∀ status msg, e ≠ SignatureVerificationError status msg.
Proof.
  unfold decryptStreamWithSessionKey.
  repeat case_match; intros [= <-]; done.
Qed.

(** C2. Whenever decryption itself succeeds (the stream is decrypted and
    decoded and the body read through), [DecryptAndVerify] returns the
    plaintext rebuilt from the body and from the binary flag, file name
    and modification time of the literal data, together with the
    signature status, whatever that status is: it is nil or a signature
    verification error, and the plaintext is returned in both cases.
    Whenever decryption fails, no plaintext is returned, and the error
    returned is the decryption error, never a signature status. *)
Theorem DecryptAndVerify_two_results (sk : SessionKey) (dataPacket : bytes)
    (verifyKeyRing : option (KeyRing Entity)) (verifyTime : Z) :
  (∀ md body,
     decryptStreamWithSessionKey sk dataPacket verifyKeyRing = Ok md →
     ReadFrom (UnverifiedBody md) = Ok body →
     DecryptAndVerify sk dataPacket verifyKeyRing verifyTime
     = (Some (plaintext_of md body), signature_status md verifyKeyRing verifyTime)
     ∧ (signature_status md verifyKeyRing verifyTime = None
        ∨ ∃ status msg,
            signature_status md verifyKeyRing verifyTime
            = Some (SignatureVerificationError status msg)))
  ∧ (∀ e,
       decryptStreamWithSessionKey sk dataPacket verifyKeyRing = Err e →
       DecryptAndVerify sk dataPacket verifyKeyRing verifyTime = (None, Some e)
       ∧ ∀ status msg, e ≠ SignatureVerificationError status msg)
  ∧ (∀ md e,
       decryptStreamWithSessionKey sk dataPacket verifyKeyRing = Ok md →
       ReadFrom (UnverifiedBody md) = Err e →
       DecryptAndVerify sk dataPacket verifyKeyRing verifyTime
       = (None, Some (errors.Wrap e "gopenpgp: error in reading message body"))).
Proof.
  pose proof (DecryptAndVerify_cases sk dataPacket verifyKeyRing verifyTime) as Hc.
  split_and!.
  - intros md body Hmd Hbody. rewrite Hmd, Hbody in Hc.
    split; [exact Hc | apply signature_status_shape].
  - intros e He. split; [by rewrite He in Hc |].
    by eapply decryptStreamWithSessionKey_error.
  - intros md e Hmd Hbody. by rewrite Hmd, Hbody in Hc.
Qed.

(** C5. If the first packet read from the input is not a symmetrically
    encrypted data packet, [DecryptAndVerify] returns no plaintext and
    the error "invalid packet type"; if no packet can be read at all it
    returns no plaintext and the error of the reader; a plaintext is
    returned only when the first packet is a symmetrically encrypted data
    packet. *)
Theorem DecryptAndVerify_first_packet (sk : SessionKey) (dataPacket : bytes)
    (verifyKeyRing : option (KeyRing Entity)) (verifyTime : Z) :
  (∀ tag body,
     Next dataPacket = Ok (OtherPacket tag body) →
     DecryptAndVerify sk dataPacket verifyKeyRing verifyTime
     = (None, Some (errors.New "gopenpgp: invalid packet type")))
  ∧ (∀ e,
       Next dataPacket = Err e →
       DecryptAndVerify sk dataPacket verifyKeyRing verifyTime
       = (None, Some (errors.Wrap e "gopenpgp: unable to read symmetric packet")))
  ∧ (∀ message err,
       DecryptAndVerify sk dataPacket verifyKeyRing verifyTime = (Some message, err) →
       ∃ p, Next dataPacket = Ok (SymmetricallyEncryptedPacket p)).
Proof.
  split_and!.
  - intros tag body Hn. unfold DecryptAndVerify, decryptStreamWithSessionKey.
    by rewrite Hn.
  - intros e Hn. unfold DecryptAndVerify, decryptStreamWithSessionKey.
    by rewrite Hn.
  - intros message err. unfold DecryptAndVerify, decryptStreamWithSessionKey.
    destruct (Next dataPacket) as [[p | tag body] | e]; [eauto | done | done].
Qed.

(** C7, as amended. [Decrypt] returns exactly what [DecryptAndVerify]
    returns without a verification key set and with verification time 0;
    the time check and the verification are skipped, and a decryption
    that succeeds returns the plaintext with a nil error: no signature
    status, and in particular not the status "not signed". *)
Theorem Decrypt_skips_verification (sk : SessionKey) (dataPacket : bytes) :
  Decrypt sk dataPacket = DecryptAndVerify sk dataPacket None 0
  ∧ match decryptStreamWithSessionKey sk dataPacket None with
    | Err e => Decrypt sk dataPacket = (None, Some e)
    | Ok md =>
        match ReadFrom (UnverifiedBody md) with
        | Err e =>
            Decrypt sk dataPacket
            = (None, Some (errors.Wrap e "gopenpgp: error in reading message body"))
        | Ok body => Decrypt sk dataPacket = (Some (plaintext_of md body), None)
        end
    end.
Proof.
  split; [reflexivity |]. apply (DecryptAndVerify_cases sk dataPacket None 0).
Qed.
End Decryptor_properties.

Lemma DecryptAndVerify_two_results_witness :
  ∃ md body,
    decryptStreamWithSessionKey (lib := Reference.library) Reference.sk
      Reference.sealed_hello (Some Reference.bystander) = Ok md
    ∧ ReadFrom (UnverifiedBody md) = Ok body
    ∧ DecryptAndVerify (lib := Reference.library) Reference.sk
        Reference.sealed_hello (Some Reference.bystander) 0
      = (Some Reference.hello, Some newSignatureNotSigned).
Proof.
  assert (∃ md,
            decryptStreamWithSessionKey (lib := Reference.library) Reference.sk
              Reference.sealed_hello (Some Reference.bystander) = Ok md)
    as [md Hmd] by (eexists; vm_compute; reflexivity).
  assert (∃ body, ReadFrom (UnverifiedBody md) = Ok body) as [body Hbody].
  { vm_compute in Hmd. injection Hmd as <-. eexists. reflexivity. }
  exists md, body. split; [exact Hmd |]. split; [exact Hbody |].
  destruct (DecryptAndVerify_two_results (lib := Reference.library) Reference.sk
              Reference.sealed_hello (Some Reference.bystander) 0) as [Hok _].
  destruct (Hok md body Hmd Hbody) as [-> _].
  vm_compute in Hmd. injection Hmd as <-.
  vm_compute in Hbody. injection Hbody as <-.
  reflexivity.
Defined.

Lemma DecryptAndVerify_first_packet_witness :
  Next (PacketLibrary := Reference.library) [xcb; x62] = Ok (OtherPacket 203 [x62])
  ∧ DecryptAndVerify (lib := Reference.library) Reference.sk [xcb; x62] None 0
    = (None, Some (errors.New "gopenpgp: invalid packet type")).
Proof.
  assert (Next (PacketLibrary := Reference.library) [xcb; x62]
          = Ok (OtherPacket 203 [x62])) as Hn by reflexivity.
  split; [exact Hn |].
  destruct (DecryptAndVerify_first_packet (lib := Reference.library) Reference.sk
              [xcb; x62] None 0) as [Hother _].
  exact (Hother 203%N [x62] Hn).
Defined.

(** C7, as stated, fails: an unsigned message decrypted by [Decrypt] comes
    back with a nil error, not with the status "not signed" that
    [DecryptAndVerify] reports for the same message as soon as a key set is
    supplied. *)
Lemma Decrypt_status_counterexample :
  Decrypt (lib := Reference.library) Reference.sk Reference.sealed_hello
  = (Some Reference.hello, None)
  ∧ snd (Decrypt (lib := Reference.library) Reference.sk Reference.sealed_hello)
    ≠ Some newSignatureNotSigned
  ∧ DecryptAndVerify (lib := Reference.library) Reference.sk Reference.sealed_hello
      (Some Reference.bystander) 0
    = (Some Reference.hello, Some newSignatureNotSigned).
Proof.
  split_and!; [by vm_compute | | by vm_compute].
  vm_compute. discriminate.
Qed.

(** ** The size invariant of session keys *)

Lemma range_find_found order cipher algo :
  range_find order cipher "" = algo → algo ≠ "" → (algo, cipher) ∈ order.
Proof.
  intros <-. induction order as [| [k v] rest IH]; [done |].
  simpl. case_decide as Heq.
  - subst. intros _. apply list_elem_of_here.
  - intros Hne. by apply list_elem_of_further, IH.
Qed.



Section Key_use.
Context {lib : PacketLibrary}.



Lemma DecryptAndVerify_unknown_algorithm sk dataPacket verifyKeyRing verifyTime p :
  Next dataPacket = Ok (SymmetricallyEncryptedPacket p) →
  symKeyAlgos !! Algo sk = None →
  DecryptAndVerify sk dataPacket verifyKeyRing verifyTime
  = (None,
     Some (errors.Wrap
             (errors.New ("gopenpgp: unsupported cipher function: " +:+ Algo sk))
             "gopenpgp: unable to decrypt with session key")).
Proof.
  intros Hn Ha. unfold DecryptAndVerify, decryptStreamWithSessionKey, GetCipherFunc.
  by rewrite Hn, Ha.
Qed.

End Key_use.




(** ** The canonicalizer *)

Module canonicalizer_properties.
Import strings internal canonical_form.

Lemma append_cons a s t : String a s +:+ t = String a (s +:+ t).
Proof. reflexivity. Qed.

Lemma append_assoc s t u : (s +:+ t) +:+ u = s +:+ (t +:+ u).
Proof.
  induction s as [| a s IH]; [reflexivity |].
  by rewrite !append_cons, IH.
Qed.

(** Splitting. *)

Lemma split_loop_lines_of s n :
  (CountByte s LF ≤ n)%nat → split_loop n s LF = lines_of s.
Proof.
  revert n. induction s as [| a s IH]; intros n Hn.
  - by destruct n.
  - simpl in Hn. simpl lines_of. case_decide as Ha.
    + subst a. destruct n as [| n]; [lia |].
      simpl. f_equal. apply IH. lia.
    + destruct n as [| n].
      * rewrite <- (IH 0) by (simpl in Hn; lia). reflexivity.
      * rewrite <- (IH (S n)) by (simpl in Hn; lia).
        simpl. rewrite decide_False by done.
        destruct (IndexByte s LF) as [m |]; simpl; reflexivity.
Qed.

Lemma Split_lines_of text : Split text LF = lines_of text.
Proof. unfold Split. by apply split_loop_lines_of. Qed.

(** Trimming. *)

Lemma contains_cutset c : contains cutset c = blank c.
Proof.
  unfold cutset, blank. simpl. rewrite orb_false_r, orb_assoc.
  repeat f_equal; apply bool_decide_ext; split; congruence.
Qed.

Lemma last_byte_None s : last_byte s = None → s = EmptyString.
Proof.
  induction s as [| a s IH]; [done |]. simpl.
  destruct s; [done |]. intros Hl. by specialize (IH Hl).
Qed.

Lemma strip_blank_last s c :
  last_byte s = Some c → blank c = true → strip s = strip (but_last s).
Proof.
  induction s as [| a s IH]; [done |].
  destruct s as [| b s].
  - simpl. intros [= ->] ->. reflexivity.
  - intros Hl Hb. change (last_byte (String a (String b s))) with (last_byte (String b s)) in Hl.
    change (but_last (String a (String b s))) with (String a (but_last (String b s))).
    change (strip (String a (String b s)))
      with (match strip (String b s) with
            | EmptyString => if blank a then EmptyString else String a EmptyString
            | kept => String a kept
            end).
    rewrite (IH Hl Hb). reflexivity.
Qed.

Lemma strip_kept_last s c :
  last_byte s = Some c → blank c = false → strip s = s.
Proof.
  induction s as [| a s IH]; [done |].
  destruct s as [| b s].
  - simpl. intros [= ->] ->. reflexivity.
  - intros Hl Hb. change (last_byte (String a (String b s))) with (last_byte (String b s)) in Hl.
    change (strip (String a (String b s)))
      with (match strip (String b s) with
            | EmptyString => if blank a then EmptyString else String a EmptyString
            | kept => String a kept
            end).
    rewrite (IH Hl Hb). reflexivity.
Qed.

Lemma but_last_length s :
  String.length (but_last s) = pred (String.length s).
Proof.
  induction s as [| a s IH]; [done |].
  destruct s as [| b s]; [done |].
  change (but_last (String a (String b s))) with (String a (but_last (String b s))).
  change (String.length (String a (but_last (String b s))))
    with (S (String.length (but_last (String b s)))).
  rewrite IH. reflexivity.
Qed.

Lemma trim_loop_strip fuel s :
  (String.length s ≤ fuel)%nat → trim_loop fuel s cutset = strip s.
Proof.
  revert s. induction fuel as [| fuel IH]; intros s Hlen.
  - destruct s; [done | simpl in Hlen; lia].
  - change (trim_loop (S fuel) s cutset)
      with (match last_byte s with
            | None => s
            | Some c =>
                if contains cutset c then trim_loop fuel (but_last s) cutset else s
            end).
    destruct (last_byte s) as [c |] eqn:Hl.
    + rewrite contains_cutset. destruct (blank c) eqn:Hb.
      * rewrite IH by (rewrite but_last_length; lia).
        symmetry. by eapply strip_blank_last.
      * symmetry. by eapply strip_kept_last.
    + by rewrite (last_byte_None s Hl).
Qed.

Lemma TrimRight_strip line : TrimRight line cutset = strip line.
Proof. unfold TrimRight. by apply trim_loop_strip. Qed.

(** The loop over the indices is a map. *)

Lemma trim_each_map before rest :
  trim_each (seq (length before) (length rest)) (before ++ rest)
  = before ++ map (λ line, TrimRight line cutset) rest.
Proof.
  revert before. induction rest as [| line rest IH]; intros before.
  - simpl. by rewrite app_nil_r.
  - simpl. rewrite list_lookup_middle by done.
    rewrite insert_app_r_alt, Nat.sub_diag by done. simpl.
    replace (S (length before)) with (length (before ++ [TrimRight line cutset]))
      by (rewrite length_app; simpl; lia).
    rewrite (cons_middle _ before rest), app_assoc, IH, <- app_assoc. reflexivity.
Qed.

(** Joining. *)

Lemma rejoin_append a b more : rejoin ((a +:+ b) :: more) = a +:+ rejoin (b :: more).
Proof.
  destruct more as [| line more]; [reflexivity |].
  change (rejoin ((a +:+ b) :: line :: more))
    with ((a +:+ b) +:+ CRLF +:+ rejoin (line :: more)).
  by rewrite append_assoc.
Qed.

Lemma fold_left_rejoin first others :
  fold_left (λ b s, b +:+ CRLF +:+ s) others first = rejoin (first :: others).
Proof.
  revert first. induction others as [| line others IH]; intros first; [done |].
  simpl fold_left. rewrite IH, !rejoin_append. reflexivity.
Qed.

Lemma Join_rejoin lines : Join lines CRLF = rejoin lines.
Proof.
  destruct lines as [| first others]; [done |]. apply fold_left_rejoin.
Qed.
End canonicalizer_properties.

(** C6. For every text, [CanonicalizeAndTrim] returns what the three steps
    of the specification return: the text split on line feeds, each line
    stripped of its trailing spaces, tabs and carriage returns, the lines
    rejoined with CRLF. It is a function of the text alone. *)
Theorem CanonicalizeAndTrim_canonical (text : string) :
  internal.CanonicalizeAndTrim text = canonical_form.canonicalize text.
Proof.
  unfold internal.CanonicalizeAndTrim, canonical_form.canonicalize.
  rewrite canonicalizer_properties.Join_rejoin.
  pose proof (canonicalizer_properties.trim_each_map []
                (strings.Split text internal.LF)) as Hloop.
  simpl in Hloop. rewrite Hloop.
  rewrite canonicalizer_properties.Split_lines_of. f_equal.
  apply map_ext. intros line. apply canonicalizer_properties.TrimRight_strip.
Qed.
Example CanonicalizeAndTrim_signed_message :
  internal.CanonicalizeAndTrim
    ("  Signed message" +:+ String internal.LF ("  " +:+ String internal.LF "  "))
  = "  Signed message" +:+ internal.CRLF +:+ internal.CRLF.
Proof. reflexivity. Qed.

(** ** The key of [NewSessionKeyFromToken] is a copy *)

Module Slices_properties.
Import Slices.

Lemma load_length m s : valid m s → length (load m s) = len s.
Proof.
  intros (a & Ha & Hb). unfold load. rewrite Ha.
  rewrite length_take, length_drop. lia.
Qed.

Lemma valid_in_memory m s : valid m s → (array s < length m)%nat.
Proof. intros (a & Ha & _). by eapply lookup_lt_Some. Qed.

Lemma load_extend m extra s :
  (array s < length m)%nat → load (m ++ extra) s = load m s.
Proof. intros Hlt. unfold load. by rewrite lookup_app_l. Qed.

(** What [clone] leaves in memory: the old arrays, and one new array
    with the bytes of the input. *)
Lemma clone_memory m input :
  valid m input →
  clone input m
  = ({| array := length m; offset := 0; len := len input |},
     m ++ [load m input]).
Proof.
  intros Hv. unfold clone, make, copy. f_equal.
  rewrite list_lookup_middle by done.
  cbn [array offset len]. rewrite load_extend by (by apply valid_in_memory).
  pose proof (load_length m input Hv) as Hlen.
  rewrite take_0, drop_0, Nat.add_0_l.
  rewrite (take_ge (replicate _ _)) by (rewrite length_replicate; lia).
  rewrite (drop_ge (replicate _ _)) by (rewrite length_replicate; lia).
  rewrite app_nil_r, app_nil_l.
  assert (copy_bytes (replicate (len input) x00) (load m input) = load m input)
    as ->.
  { rewrite <- Hlen. apply clone_eq. }
  rewrite <- (Nat.add_0_r (length m)) at 1.
  rewrite insert_app_r. reflexivity.
Qed.

Lemma store_other m s i b m' k :
  store m s i b = Some m' → array s ≠ k →
  m' !! k = m !! k ∧ length m' = length m.
Proof.
  unfold store. destruct (m !! array s) as [a |]; [| done].
  case_decide; [| done]. intros [= <-] Hne.
  by rewrite list_lookup_insert_ne, length_insert.
Qed.

Lemma stores_other m ws m' k :
  Forall (λ w, array w.1.1 ≠ k) ws →
  stores m ws = Some m' →
  m' !! k = m !! k.
Proof.
  revert m. induction ws as [| [[s i] b] ws IH]; intros m Hall; simpl.
  - by intros [= <-].
  - destruct (store m s i b) as [m1 |] eqn:Hs; [| done].
    apply Forall_cons in Hall as [Hne Hall]. simpl in Hne.
    intros Hrest. rewrite (IH m1 Hall Hrest).
    by destruct (store_other _ _ _ _ _ k Hs Hne).
Qed.

(** C10. [NewSessionKeyFromToken] stores the bytes of the token in a new
    backing array: right after construction the key shows the bytes of
    the token, and after any sequence of element writes through slices of
    the arrays that existed before the call (the token itself and every
    alias of it among them) the key still shows the bytes the token had
    at construction. *)
Theorem NewSessionKeyFromToken_copies (m : Memory) (token : slice) (algo : string)
    (sk : SessionKey) (m' : Memory) :
  valid m token →
  NewSessionKeyFromToken token algo m = (sk, m') →
  Algo sk = algo
  ∧ array (Key sk) = length m
  ∧ load m' (Key sk) = load m token
  ∧ ∀ ws m'',
      Forall (λ w, (array w.1.1 < length m)%nat) ws →
      stores m' ws = Some m'' →
      load m'' (Key sk) = load m token.
Proof.
  intros Hv. unfold NewSessionKeyFromToken. rewrite (clone_memory m token Hv).
  intros [= <- <-]. cbn [Key Algo array].
  pose proof (load_length m token Hv) as Hlen.
  assert (∀ mem, mem !! length m = Some (load m token) →
            load mem {| array := length m; offset := 0; len := len token |}
            = load m token) as Hload.
  { intros mem Hm. unfold load at 1. cbn [array offset len]. rewrite Hm, drop_0.
    apply take_ge. lia. }
  split_and!; [done | done | |].
  - apply Hload. by apply list_lookup_middle.
  - intros ws m'' Hall Hst. apply Hload.
    rewrite (stores_other (m ++ [load m token]) ws m'' (length m));
      [by apply list_lookup_middle | | done].
    eapply Forall_impl; [exact Hall |]. simpl. intros w Hw. lia.
Qed.
End Slices_properties.

Lemma NewSessionKeyFromToken_copies_witness :
  Slices.valid Slices.one_array Slices.whole
  ∧ ∃ sk m1 m2,
      Slices.NewSessionKeyFromToken Slices.whole "aes128" Slices.one_array = (sk, m1)
      ∧ Slices.stores m1 [(Slices.whole, 0, xff)] = Some m2
      ∧ Slices.load m2 Slices.whole = [xff; x02; x03]
      ∧ Slices.load m2 (Slices.Key sk) = [x01; x02; x03].
Proof.
  assert (Slices.valid Slices.one_array Slices.whole) as Hv.
  { exists [x01; x02; x03]. split; [reflexivity |]. simpl. lia. }
  split; [exact Hv |].
  destruct (Slices.NewSessionKeyFromToken Slices.whole "aes128" Slices.one_array)
    as [sk m1] eqn:Hnew.
  assert (∃ m2, Slices.stores m1 [(Slices.whole, 0, xff)] = Some m2
                ∧ Slices.load m2 Slices.whole = [xff; x02; x03]) as (m2 & Hst & Hl).
  { vm_compute in Hnew. injection Hnew as <- <-. eexists. split; reflexivity. }
  exists sk, m1, m2. split; [reflexivity |]. split; [exact Hst |]. split; [exact Hl |].
  destruct (Slices_properties.NewSessionKeyFromToken_copies
              Slices.one_array Slices.whole "aes128" sk m1 Hv Hnew)
    as (_ & _ & _ & Hkeep).
  rewrite (Hkeep [(Slices.whole, 0, xff)] m2); [reflexivity | | exact Hst].
  constructor; [simpl; lia | constructor].
Defined.

(** * Further properties of the session key code *)

(** ** Random tokens and generated keys *)

Lemma copy_same_length (dst src : bytes) :
  length src = length dst → copy dst src = src.
Proof.
  intros Hlen. unfold copy.
  rewrite drop_ge by lia. rewrite app_nil_r. apply take_ge. lia.
Qed.

(** [RandomToken] returns a token of exactly the size asked for, which is
    the bytes read from the entropy source when the source delivered that
    many; a read error comes back wrapped, with no token. *)
Theorem RandomToken_cases (random : Reader) (size : nat) :
  (∀ bs, random size = Ok bs →
     ∃ token, RandomToken random size = Ok token
              ∧ length token = size
              ∧ (length bs = size → token = bs))
  ∧ (∀ e, random size = Err e →
       RandomToken random size
       = Err (errors.Wrap e "gopenpgp: error in generating random token")).
Proof.
  unfold RandomToken, ReadFull, make. rewrite length_replicate. split.
  - intros bs ->. eexists. split; [reflexivity |]. split.
    + by rewrite copy_length, length_replicate.
    + intros Hlen. apply copy_same_length. by rewrite length_replicate.
  - by intros e ->.
Qed.

Lemma RandomToken_cases_witness :
  Reference.sevens 5 = Ok (replicate 5 x07)
  ∧ RandomToken Reference.sevens 5 = Ok (replicate 5 x07).
Proof.
  assert (Reference.sevens 5 = Ok (replicate 5 x07)) as Hr by reflexivity.
  split; [exact Hr |].
  destruct (RandomToken_cases Reference.sevens 5) as [Hok _].
  destruct (Hok _ Hr) as (token & -> & _ & Hsame).
  by rewrite (Hsame eq_refl).
Defined.

(** The key of a generated session key is what the entropy source
    delivered: with a source that delivers as many bytes as the cipher of
    the algorithm needs, [GenerateSessionKeyAlgo] returns these bytes under
    the algorithm name it was given. *)
Theorem GenerateSessionKeyAlgo_entropy (random : Reader) (algo : string)
    (cf : CipherFunction) (bs : bytes) :
  symKeyAlgos !! algo = Some cf →
  random (packet.KeySize cf) = Ok bs →
  length bs = packet.KeySize cf →
  GenerateSessionKeyAlgo random algo = Ok {| Key := bs; Algo := algo |}.
Proof.
  intros Hcf Hr Hlen. unfold GenerateSessionKeyAlgo. rewrite Hcf.
  destruct (RandomToken_cases random (packet.KeySize cf)) as [Hok _].
  destruct (Hok bs Hr) as (token & -> & _ & Hsame). by rewrite (Hsame Hlen).
Qed.

Lemma GenerateSessionKeyAlgo_entropy_witness :
  GenerateSessionKeyAlgo Reference.sevens constants.AES128
  = Ok {| Key := replicate 16 x07; Algo := constants.AES128 |}.
Proof.
  apply (GenerateSessionKeyAlgo_entropy Reference.sevens constants.AES128
           packet.CipherAES128 (replicate 16 x07)); reflexivity.
Defined.

(** [GenerateSessionKey] never fails for want of an algorithm: it returns
    the wrapped error of the entropy source, or a key for AES-256 of 32
    bytes that passes [checkSize] and whose cipher function is AES-256. *)
Theorem GenerateSessionKey_default (random : Reader) :
  match random 32 with
  | Err e =>
      GenerateSessionKey random
      = Err (errors.Wrap e "gopenpgp: error in generating random token")
  | Ok _ =>
      ∃ sk, GenerateSessionKey random = Ok sk
            ∧ Algo sk = constants.AES256
            ∧ length (Key sk) = 32
            ∧ checkSize sk = None
            ∧ GetCipherFunc sk = Ok packet.CipherAES256
  end.
Proof.
  assert (symKeyAlgos !! constants.AES256 = Some packet.CipherAES256) as Hcf
    by reflexivity.
  assert (packet.KeySize packet.CipherAES256 = 32) as Hsize by reflexivity.
  destruct (random 32) as [bs | e] eqn:Hr.
  - destruct (RandomToken_delivers random 32 bs Hr) as [token Htok].
    exists {| Key := token; Algo := constants.AES256 |}.
    assert (length token = 32) as Hlen by (by eapply RandomToken_length).
    unfold GenerateSessionKey, GenerateSessionKeyAlgo.
    rewrite Hcf, Hsize, Htok. split_and!; try done.
    apply checkSize_None. exists packet.CipherAES256. by rewrite Hsize.
  - unfold GenerateSessionKey.
    rewrite (GenerateSessionKeyAlgo_entropy_failure random constants.AES256
               packet.CipherAES256 e Hcf); [done |]. by rewrite Hsize.
Qed.

(** ** Names and identifiers *)

Lemma registry_names_by_cipher :
  Forall (λ e1, Forall (λ e2, e1.2 = e2.2 → e1.2 ≠ packet.Cipher3DES → e1.1 = e2.1)
                 symKeyAlgos_entries) symKeyAlgos_entries.
Proof. apply (bool_decide_unpack _). vm_compute. exact I. Qed.

Lemma registry_name_unique a b cf :
  symKeyAlgos !! a = Some cf → symKeyAlgos !! b = Some cf →
  cf ≠ packet.Cipher3DES → a = b.
Proof.
  intros Ha%symKeyAlgos_lookup Hb%symKeyAlgos_lookup Hne.
  pose proof registry_names_by_cipher as Hall.
  rewrite Forall_forall in Hall. specialize (Hall _ Ha).
  rewrite Forall_forall in Hall. by apply (Hall _ Hb).
Qed.

Lemma registry_3DES_names algo :
  symKeyAlgos !! algo = Some packet.Cipher3DES →
  algo = constants.ThreeDES ∨ algo = constants.TripleDES.
Proof.
  intros Ha%symKeyAlgos_lookup. unfold symKeyAlgos_entries in Ha.
  repeat (apply elem_of_cons in Ha as [Ha | Ha];
          [pose proof (f_equal snd Ha) as Hc; apply (f_equal fst) in Ha;
           simpl in Ha, Hc; first [by left | by right | by vm_compute in Hc] |]).
  by apply elem_of_nil in Ha.
Qed.

(** From a name to its cipher identifier and back with [getAlgo]: in every
    order of the range, the name that comes back is registered for the
    same identifier; it is the name one started from, except for 3DES
    where it is one of the two aliases. *)
Theorem getAlgo_round_trip (order : list (string * CipherFunction))
    (algo : string) (cf : CipherFunction) :
  range_order order →
  symKeyAlgos !! algo = Some cf →
  symKeyAlgos !! getAlgo order cf = Some cf
  ∧ (cf ≠ packet.Cipher3DES → getAlgo order cf = algo)
  ∧ (cf = packet.Cipher3DES →
     getAlgo order cf = constants.ThreeDES ∨ getAlgo order cf = constants.TripleDES).
Proof.
  intros Hord Hcf.
  assert (symKeyAlgos !! getAlgo order cf = Some cf) as Hback
    by (apply getAlgo_registered; [done | by exists algo]).
  split_and!; [done | |].
  - intros Hne. by eapply registry_name_unique.
  - intros ->. by apply registry_3DES_names.
Qed.

Lemma getAlgo_round_trip_witness :
  range_order (reverse (map_to_list symKeyAlgos))
  ∧ symKeyAlgos !! "cast5" = Some 3%N
  ∧ getAlgo (reverse (map_to_list symKeyAlgos)) 3%N = "cast5".
Proof.
  assert (range_order (reverse (map_to_list symKeyAlgos))) as Hord
    by (unfold range_order; apply reverse_Permutation).
  assert (symKeyAlgos !! "cast5" = Some 3%N) as Hcf by reflexivity.
  split; [exact Hord |]. split; [exact Hcf |].
  destruct (getAlgo_round_trip _ "cast5" 3%N Hord Hcf) as (_ & Hsame & _).
  apply Hsame. discriminate.
Defined.

(** ** Session keys taken from an encrypted key *)

Lemma range_find_registered_name order cipher :
  range_order order → registered cipher →
  symKeyAlgos !! range_find order cipher "" = Some cipher
  ∧ range_find order cipher "" ≠ "".
Proof.
  intros Hord [k Hk].
  assert (symKeyAlgos !! range_find order cipher "" = Some cipher) as Hname.
  { apply (range_order_lookup order); [done |].
    apply range_find_match. exists k. by apply (range_order_lookup order). }
  split; [done |]. intros Hempty. rewrite Hempty in Hname. discriminate Hname.
Qed.

Lemma range_find_unregistered order cipher algo :
  range_order order → ¬ registered cipher →
  range_find order cipher algo = algo.
Proof.
  intros Hord Hnot. apply range_find_no_match.
  intros k v Hin ->. apply Hnot. exists k. by apply (range_order_lookup order).
Qed.

(** [newSessionKeyFromEncrypted], in every order of the range: a cipher
    identifier that is not in the registry is an error that names it; a
    registered identifier with a key of another length than its key size
    is the wrapped size error; a registered identifier with a key of its
    key size gives a session key that holds the key of the packet and an
    algorithm name registered for that identifier. *)
Theorem newSessionKeyFromEncrypted_cases (order : list (string * CipherFunction))
    (ek : EncryptedKey) :
  range_order order →
  (¬ registered (ek_CipherFunc ek) →
   newSessionKeyFromEncrypted order ek
   = Err (errors.New ("gopenpgp: unsupported cipher function: "
                      +:+ pretty (ek_CipherFunc ek))))
  ∧ (registered (ek_CipherFunc ek) →
     packet.KeySize (ek_CipherFunc ek) ≠ length (ek_Key ek) →
     newSessionKeyFromEncrypted order ek
     = Err (errors.Wrap (errors.New "wrong session key size")
              "gopenpgp: unable to decrypt session key"))
  ∧ (registered (ek_CipherFunc ek) →
     packet.KeySize (ek_CipherFunc ek) = length (ek_Key ek) →
     ∃ algo,
       newSessionKeyFromEncrypted order ek = Ok {| Key := ek_Key ek; Algo := algo |}
       ∧ symKeyAlgos !! algo = Some (ek_CipherFunc ek)).
Proof.
  intros Hord. unfold newSessionKeyFromEncrypted, checkSize. split_and!.
  - intros Hnot. rewrite (range_find_unregistered order _ "" Hord Hnot).
    by rewrite decide_True.
  - intros Hreg Hsize.
    destruct (range_find_registered_name order _ Hord Hreg) as [Hname Hne].
    rewrite decide_False by done. simpl. rewrite Hname.
    by rewrite decide_True.
  - intros Hreg Hsize.
    destruct (range_find_registered_name order _ Hord Hreg) as [Hname Hne].
    rewrite decide_False by done. simpl. rewrite Hname.
    rewrite decide_False by (intros Hn; by apply Hn).
    eauto.
Qed.

Lemma newSessionKeyFromEncrypted_cases_witness :
  let ek := {| ek_CipherFunc := packet.CipherAES256; ek_Key := Reference.aes256_key |} in
  range_order (map_to_list symKeyAlgos)
  ∧ registered (ek_CipherFunc ek)
  ∧ packet.KeySize (ek_CipherFunc ek) = length (ek_Key ek)
  ∧ ∃ algo,
      newSessionKeyFromEncrypted (map_to_list symKeyAlgos) ek
      = Ok {| Key := Reference.aes256_key; Algo := algo |}
      ∧ symKeyAlgos !! algo = Some packet.CipherAES256.
Proof.
  intros ek.
  assert (range_order (map_to_list symKeyAlgos)) as Hord
    by (unfold range_order; reflexivity).
  assert (registered (ek_CipherFunc ek)) as Hreg
    by (exists constants.AES256; reflexivity).
  assert (packet.KeySize (ek_CipherFunc ek) = length (ek_Key ek)) as Hsize
    by reflexivity.
  split; [exact Hord |]. split; [exact Hreg |]. split; [exact Hsize |].
  destruct (newSessionKeyFromEncrypted_cases _ ek Hord) as (_ & _ & Hok).
  exact (Hok Hreg Hsize).
Defined.

Module Slices_encrypted_properties.
Import Slices Slices_encrypted.

Lemma load_store m s i b m' :
  valid m s → store m s i b = Some m' →
  load m' s = <[i := b]> (load m s).
Proof.
  intros (a & Ha & Hb). unfold store, load. rewrite Ha.
  case_decide as Hi; [| done]. intros [= <-].
  rewrite list_lookup_insert_eq by (by eapply lookup_lt_Some).
  rewrite drop_insert_ge by lia. rewrite take_insert_lt by lia.
  f_equal. lia.
Qed.

(** The session key that [newSessionKeyFromEncrypted] returns shares its
    bytes with the encrypted key it was taken from: the key is the slice
    of the packet, not a copy, so an element written through the slice of
    the packet afterwards is read through the session key. *)
Theorem newSessionKeyFromEncrypted_aliases (order : list (string * CipherFunction))
    (ek : EncryptedKey) (sk : SessionKey) (m m' : Memory) (i : nat) (b : byte) :
  newSessionKeyFromEncrypted order ek = Ok sk →
  valid m (Key ek) →
  store m (Key ek) i b = Some m' →
  Slices.Key sk = Key ek
  ∧ load m' (Slices.Key sk) = <[i := b]> (load m (Key ek))
  ∧ load m' (Slices.Key sk) !! i = Some b.
Proof.
  unfold newSessionKeyFromEncrypted. case_decide; [discriminate |].
  destruct (checkSize _); [discriminate |]. intros [= <-] Hv Hst.
  cbn [Slices.Key]. pose proof (load_store _ _ _ _ _ Hv Hst) as Hl.
  split_and!; [done | done |].
  rewrite Hl. apply list_lookup_insert_eq.
  rewrite (Slices_properties.load_length _ _ Hv).
  unfold store in Hst. destruct (m !! array (Key ek)); [| done].
  by case_decide.
Qed.
End Slices_encrypted_properties.

Lemma newSessionKeyFromEncrypted_aliases_witness :
  let ek := {| Slices_encrypted.CipherFunc := packet.CipherAES128;
               Slices_encrypted.Key := {| Slices.array := 0; Slices.offset := 0;
                                          Slices.len := 16 |} |} in
  let m := [replicate 16 x01] in
  ∃ sk m',
    Slices_encrypted.newSessionKeyFromEncrypted (map_to_list symKeyAlgos) ek = Ok sk
    ∧ Slices.valid m (Slices_encrypted.Key ek)
    ∧ Slices.store m (Slices_encrypted.Key ek) 2 xff = Some m'
    ∧ Slices.load m' (Slices.Key sk) !! 2 = Some xff.
Proof.
  intros ek m.
  assert (∃ sk, Slices_encrypted.newSessionKeyFromEncrypted
                  (map_to_list symKeyAlgos) ek = Ok sk) as [sk Hsk]
    by (eexists; vm_compute; reflexivity).
  assert (Slices.valid m (Slices_encrypted.Key ek)) as Hv.
  { exists (replicate 16 x01). split; [reflexivity |]. simpl. lia. }
  assert (∃ m', Slices.store m (Slices_encrypted.Key ek) 2 xff = Some m') as [m' Hst]
    by (eexists; reflexivity).
  exists sk, m'. split; [exact Hsk |]. split; [exact Hv |]. split; [exact Hst |].
  by destruct (Slices_encrypted_properties.newSessionKeyFromEncrypted_aliases
                 _ ek sk m m' 2 xff Hsk Hv Hst) as (_ & _ & Hread).
Defined.

(** ** Errors of the encrypt direction *)

Section Encrypt_errors.
Context {lib : PacketLibrary}.

(** With an algorithm that is not in the registry, [Encrypt],
    [EncryptAndSign] and [EncryptWithCompression] all return the same
    wrapped error, which names the algorithm; the key ring is not even
    asked for its signing entity. *)
Theorem Encrypt_unsupported_algorithm (sk : SessionKey) (message : PlainMessage)
    (signKeyRing : option (KeyRing Entity)) :
  symKeyAlgos !! Algo sk = None →
  let failure :=
    Err (errors.Wrap
           (errors.New ("gopenpgp: unsupported cipher function: " +:+ Algo sk))
           "gopenpgp: unable to encrypt with session key") in
  Encrypt sk message = failure
  ∧ EncryptAndSign sk message signKeyRing = failure
  ∧ EncryptWithCompression sk message = failure.
Proof.
  intros Hn. unfold Encrypt, EncryptAndSign, EncryptWithCompression, GetCipherFunc.
  by rewrite Hn.
Qed.

(** Every error of [encryptWithSessionKey] is an error wrapped under one
    of its eight context messages: no error of the library comes back
    bare. *)
Theorem encryptWithSessionKey_errors (message : PlainMessage) (sk : SessionKey)
    (signEntity : option Entity) (config : Config) (e : error) :
  encryptWithSessionKey message sk signEntity config = Err e →
  ∃ cause context, e = errors.Wrap cause context ∧ context ∈ encrypt_contexts.
Proof.
  assert (∀ cause context, context ∈ encrypt_contexts →
            ∀ e, Err (A := bytes) (errors.Wrap cause context) = Err e →
            ∃ cause' context', e = errors.Wrap cause' context'
                               ∧ context' ∈ encrypt_contexts) as Hleaf.
  { intros cause context Hin e' [= <-]. eauto. }
  assert (∀ context, bool_decide (context ∈ encrypt_contexts) = true →
            context ∈ encrypt_contexts) as Hdec.
  { intros context Hb. by apply bool_decide_eq_true in Hb. }
  unfold encryptWithSessionKey, encryptWithSessionKey_run, encryptStreamWithSessionKey.
  unfold_composer.
  destruct (setup (SymmetricallyEncryptedWriter _ _ _)) eqn:?; unfold_composer;
    [apply Hleaf, Hdec; reflexivity |].
  case_decide as Hc; unfold_composer.
  - destruct (setup (CompressedWriter _ _)) eqn:?; unfold_composer;
      [apply Hleaf, Hdec; reflexivity |].
    destruct signEntity as [signer |]; unfold_composer;
      repeat (match goal with
              | |- context [match setup ?k with _ => _ end] =>
                  destruct (setup k) eqn:?
              | |- context [match writeErr ?k ?a ?b with _ => _ end] =>
                  destruct (writeErr k a b) eqn:?
              | |- context [match emit ?k ?i with _ => _ end] =>
                  destruct (emit k i) eqn:?
              end; unfold_composer;
              try solve [apply Hleaf, Hdec; reflexivity]);
      discriminate.
  - destruct signEntity as [signer |]; unfold_composer;
      repeat (match goal with
              | |- context [match setup ?k with _ => _ end] =>
                  destruct (setup k) eqn:?
              | |- context [match writeErr ?k ?a ?b with _ => _ end] =>
                  destruct (writeErr k a b) eqn:?
              | |- context [match emit ?k ?i with _ => _ end] =>
                  destruct (emit k i) eqn:?
              end; unfold_composer;
              try solve [apply Hleaf, Hdec; reflexivity]);
      discriminate.
Qed.
End Encrypt_errors.

Lemma Encrypt_unsupported_algorithm_witness :
  symKeyAlgos !! Algo blowfish_key = None
  ∧ is_Ok (Encrypt (lib := Reference.library) blowfish_key Reference.hello) = false
  ∧ is_Ok (EncryptAndSign (lib := Reference.library) blowfish_key Reference.hello None)
    = false.
Proof.
  assert (symKeyAlgos !! Algo blowfish_key = None) as Hn by reflexivity.
  split; [exact Hn |].
  destruct (Encrypt_unsupported_algorithm (lib := Reference.library)
              blowfish_key Reference.hello None Hn) as (-> & -> & _).
  split; reflexivity.
Defined.

Lemma encryptWithSessionKey_errors_witness :
  ∃ e cause context,
    encryptWithSessionKey (lib := Reference.library) Reference.hello
      {| Key := [x01]; Algo := constants.AES256 |} None
      (plain_config (lib := Reference.library) packet.CipherAES256)
    = Err e
    ∧ e = errors.Wrap cause context
    ∧ context = "gopenpgp: unable to encrypt".
Proof.
  assert (∃ e, encryptWithSessionKey (lib := Reference.library) Reference.hello
                 {| Key := [x01]; Algo := constants.AES256 |} None
                 (plain_config (lib := Reference.library) packet.CipherAES256)
               = Err e) as [e He] by (eexists; vm_compute; reflexivity).
  destruct (encryptWithSessionKey_errors _ _ _ _ e He) as (cause & context & Hw & _).
  exists e, cause, context. split; [exact He |]. split; [exact Hw |].
  vm_compute in He. injection He as <-. by injection Hw as _ <-.
Defined.

(** ** What the three encryptions write *)

Section Encrypt_outputs.
Context {lib : PacketLibrary}.

(** [Encrypt] succeeds exactly when the algorithm of the key is registered
    and the library accepts and completes two writers: the literal-data
    writer for the flag, file name and time of the message, given the
    content, and the encryption writer for the registered cipher and the
    key, given what the literal-data writer emitted. Its result is what
    the encryption writer emits: nothing is compressed or signed. *)
Theorem Encrypt_Ok_iff (sk : SessionKey) (message : PlainMessage) (out : bytes) :
  Encrypt sk message = Ok out ↔
  ∃ cf lit,
    let se := SymmetricallyEncryptedWriter cf (Key sk) (plain_config cf) in
    let ld := LiteralWriter (IsBinary message) (Filename message) (Time message) in
    symKeyAlgos !! Algo sk = Some cf
    ∧ setup se = None ∧ setup ld = None
    ∧ writeErr ld [] (GetBinary message) = None
    ∧ emit ld (GetBinary message) = Ok lit
    ∧ writeErr se [] lit = None
    ∧ emit se lit = Ok out.
Proof.
  split.
  - unfold Encrypt, GetCipherFunc.
    destruct (symKeyAlgos !! Algo sk) as [cf |] eqn:Hcf; [| discriminate].
    fold (plain_config cf).
    assert (packet_config.Cipher (plain_config cf) = cf) as Hcipher
      by (apply Cipher_registered; by exists (Algo sk)).
    unfold encryptWithSessionKey, encryptWithSessionKey_run,
      encryptStreamWithSessionKey.
    rewrite Hcipher. intros Hrun. exists cf. revert Hrun.
    assert (packet_config.Compression (plain_config cf)
            = packet_config.CompressionNone) as Hnone by reflexivity.
    revert Hnone. generalize (plain_config cf) as config.
    intros config Hnone. unfold_composer.
    destruct (setup (SymmetricallyEncryptedWriter _ _ _)) eqn:Hse;
      unfold_composer; [discriminate |].
    case_decide as Hc; [done |]. unfold_composer.
    repeat library_step. intros [= <-]. eexists. by split_and!.
  - intros (cf & lit & Hcf & Hse & Hld & Hwl & Hel & Hws & Hes).
    unfold Encrypt, GetCipherFunc. rewrite Hcf. fold (plain_config cf).
    assert (packet_config.Cipher (plain_config cf) = cf) as Hcipher
      by (apply Cipher_registered; by exists (Algo sk)).
    apply (encryptWithSessionKey_literal message sk (plain_config cf) lit out);
      rewrite ?Hcipher; done.
Qed.
End Encrypt_outputs.

Section Sign_outputs.
Context {lib : PacketLibrary}.

(** [EncryptAndSign] with a registered algorithm: when the key ring gives
    no signing entity its error comes back wrapped as "unable to sign" and
    nothing is written; when a signed message is returned, it is what the
    encryption writer (registered cipher, key of the session key) emits
    when given what the signer emits for the content of the message, the
    signer being set up for the entity of the key ring and the flag, file
    name and time of the message. Nothing is compressed. *)
Theorem EncryptAndSign_cases (sk : SessionKey) (message : PlainMessage)
    (signKeyRing : option (KeyRing Entity)) (cf : CipherFunction) :
  symKeyAlgos !! Algo sk = Some cf →
  (∀ e, getSigningEntity signKeyRing = Err e →
     EncryptAndSign sk message signKeyRing
     = Err (errors.Wrap e "gopenpgp: unable to sign"))
  ∧ (∀ out, EncryptAndSign sk message signKeyRing = Ok out →
       ∃ signer signed,
         getSigningEntity signKeyRing = Ok signer
         ∧ emit (SignatureWriter signer
                   {| fh_IsBinary := IsBinary message;
                      fh_FileName := Filename message;
                      fh_ModTime := Z.of_N (Time message) |}
                   (plain_config cf))
             (GetBinary message) = Ok signed
         ∧ emit (SymmetricallyEncryptedWriter cf (Key sk) (plain_config cf)) signed
           = Ok out).
Proof.
  intros Hcf. unfold EncryptAndSign, GetCipherFunc. rewrite Hcf.
  fold (plain_config cf). split.
  - by intros e ->.
  - intros out. destruct (getSigningEntity signKeyRing) as [signer | e];
      [| discriminate].
    unfold encryptWithSessionKey.
    destruct (encryptWithSessionKey_run _ _ _ _ _) as [[out' h] | e] eqn:Hrun;
      [| discriminate].
    intros [= ->].
    destruct (encryptWithSessionKey_run_Ok _ _ _ _ _ _ Hrun)
      as (inner & mid & _ & Hinner & Hmid & Hout & _).
    assert (compressing (plain_config cf) = false) as Hno by reflexivity.
    rewrite Hno in Hmid. subst mid.
    assert (packet_config.Cipher (plain_config cf) = cf) as Hcipher
      by (apply Cipher_registered; by exists (Algo sk)).
    rewrite Hcipher in Hout.
    exists signer, inner. by split_and!.
Qed.

End Sign_outputs.

Lemma EncryptAndSign_cases_witness :
  symKeyAlgos !! Algo Reference.sk = Some packet.CipherAES256
  ∧ getSigningEntity (PacketLibrary := Reference.library) None
    = Err (errorString "gopenpgp: cannot sign message, unable to unlock signer key")
  ∧ EncryptAndSign (lib := Reference.library) Reference.sk Reference.hello None
    = Err (errors.Wrap
             (errorString "gopenpgp: cannot sign message, unable to unlock signer key")
             "gopenpgp: unable to sign").
Proof.
  assert (symKeyAlgos !! Algo Reference.sk = Some packet.CipherAES256) as Hcf
    by reflexivity.
  split; [exact Hcf |]. split; [reflexivity |].
  destruct (EncryptAndSign_cases (lib := Reference.library) Reference.sk
              Reference.hello None packet.CipherAES256 Hcf) as [Hfail _].
  apply Hfail. reflexivity.
Defined.


(** ** Errors of the decrypt direction *)

Section Decrypt_errors.
Context {lib : PacketLibrary}.

(** [decryptStreamWithSessionKey] returns message details exactly when the
    first packet is a symmetrically encrypted one, the algorithm of the
    key is registered, the library decrypts the packet with the
    registered cipher and the key, and reads a message from the decrypted
    stream; the key set it hands to the reader is the entities of the
    verification key ring, or the empty list when there is no key ring,
    and the configuration carries nothing but the clock. *)
Theorem decryptStreamWithSessionKey_Ok_iff (sk : SessionKey) (messageReader : bytes)
    (verifyKeyRing : option (KeyRing Entity)) (md : MessageDetails) :
  decryptStreamWithSessionKey sk messageReader verifyKeyRing = Ok md ↔
  ∃ p cf decrypted,
    Next messageReader = Ok (SymmetricallyEncryptedPacket p)
    ∧ symKeyAlgos !! Algo sk = Some cf
    ∧ symDecrypt p cf (Key sk) = Ok decrypted
    ∧ ReadMessage decrypted
        (match verifyKeyRing with
         | Some verifyKeyRing => entities verifyKeyRing
         | None => []
         end)
        (plain_config 0%N) = Ok md.
Proof.
  unfold decryptStreamWithSessionKey, GetCipherFunc, plain_config. split.
  - destruct (Next messageReader) as [[p | tag body] | e]; [| done | done].
    destruct (symKeyAlgos !! Algo sk) as [cf |]; [| done].
    destruct (symDecrypt p cf (Key sk)) as [decrypted | e] eqn:Hd; [| done].
    destruct (ReadMessage decrypted _ _) as [md' | e] eqn:Hr; [| done].
    intros [= ->]. by exists p, cf, decrypted.
  - intros (p & cf & decrypted & -> & -> & -> & ->). reflexivity.
Qed.

(** Every failure of [DecryptAndVerify] is the error "invalid packet
    type" or an error wrapped under one of five context messages, and
    comes without a plaintext; no error of the library comes back bare. *)
Theorem DecryptAndVerify_errors (sk : SessionKey) (dataPacket : bytes)
    (verifyKeyRing : option (KeyRing Entity)) (verifyTime : Z) (err : option error) :
  DecryptAndVerify sk dataPacket verifyKeyRing verifyTime = (None, err) →
  err = Some (errors.New "gopenpgp: invalid packet type")
  ∨ ∃ cause context,
      err = Some (errors.Wrap cause context) ∧ context ∈ decrypt_contexts.
Proof.
  assert (∀ context, bool_decide (context ∈ decrypt_contexts) = true →
            context ∈ decrypt_contexts) as Hdec.
  { intros context Hb. by apply bool_decide_eq_true in Hb. }
  unfold DecryptAndVerify, decryptStreamWithSessionKey, GetCipherFunc, ReadFrom.
  destruct (Next dataPacket) as [[p | tag body] | e].
  - destruct (symKeyAlgos !! Algo sk) as [cf |].
    + destruct (symDecrypt p cf (Key sk)) as [decrypted | e].
      * destruct (ReadMessage decrypted _ _) as [md | e].
        -- destruct (stream_err (UnverifiedBody md)) as [e |].
           ++ intros [= <-]. right. do 2 eexists. split; [reflexivity |].
              apply Hdec. reflexivity.
           ++ destruct verifyKeyRing; discriminate.
        -- intros [= <-]. right. do 2 eexists. split; [reflexivity |].
           apply Hdec. reflexivity.
      * intros [= <-]. right. do 2 eexists. split; [reflexivity |].
        apply Hdec. reflexivity.
    + intros [= <-]. right. do 2 eexists. split; [reflexivity |].
      apply Hdec. reflexivity.
  - intros [= <-]. by left.
  - intros [= <-]. right. do 2 eexists. split; [reflexivity |].
    apply Hdec. reflexivity.
Qed.
End Decrypt_errors.

Lemma DecryptAndVerify_errors_witness :
  DecryptAndVerify (lib := Reference.library) blowfish_key Reference.sealed_hello None 0
  = (None,
     Some (errors.Wrap
             (errors.New "gopenpgp: unsupported cipher function: blowfish")
             "gopenpgp: unable to decrypt with session key"))
  ∧ "gopenpgp: unable to decrypt with session key" ∈ decrypt_contexts.
Proof.
  assert (DecryptAndVerify (lib := Reference.library) blowfish_key
            Reference.sealed_hello None 0
          = (None,
             Some (errors.Wrap
                     (errors.New "gopenpgp: unsupported cipher function: blowfish")
                     "gopenpgp: unable to decrypt with session key"))) as Hrun
    by (vm_compute; reflexivity).
  split; [exact Hrun |].
  destruct (DecryptAndVerify_errors _ _ _ _ _ Hrun) as [Hbad | (cause & context & Heq & Hin)].
  - discriminate Hbad.
  - by injection Heq as _ <-.
Defined.

(** ** The canonical form is a fixed point *)

Module canonical_form_properties.
Import strings internal canonical_form.

(** [CanonicalizeAndTrim] computes the canonical form. *)
Lemma CanonicalizeAndTrim_eq text : CanonicalizeAndTrim text = canonicalize text.
Proof.
  unfold CanonicalizeAndTrim, canonicalize.
  rewrite canonicalizer_properties.Join_rejoin.
  pose proof (canonicalizer_properties.trim_each_map [] (Split text LF)) as Hloop.
  simpl in Hloop. rewrite Hloop.
  rewrite canonicalizer_properties.Split_lines_of. f_equal.
  apply map_ext. intros line. apply canonicalizer_properties.TrimRight_strip.
Qed.

Lemma is_line_cons a s : is_line (String a s) ↔ a ≠ LF ∧ is_line s.
Proof.
  unfold is_line. simpl. case_decide as Ha.
  - split; [lia | by intros [Hn _]].
  - split; [by intros Hs | by intros [_ Hs]].
Qed.

Lemma lines_of_lines text : Forall is_line (lines_of text).
Proof.
  induction text as [| a text IH]; simpl.
  - by repeat constructor.
  - case_decide as Ha; [by constructor |].
    destruct (lines_of text) as [| line more].
    + constructor; [by apply is_line_cons | constructor].
    + apply Forall_cons in IH as [Hline Hmore].
      constructor; [by apply is_line_cons | done].
Qed.

Lemma lines_of_not_nil text : lines_of text ≠ [].
Proof.
  destruct text as [| a text]; simpl; [done |].
  case_decide; [done |]. by destruct (lines_of text).
Qed.

Lemma lines_of_line s : is_line s → lines_of s = [s].
Proof.
  induction s as [| a s IH]; [done |].
  intros [Ha Hs]%is_line_cons. cbn [lines_of].
  destruct (decide (a = LF)) as [| _]; [done |]. by rewrite (IH Hs).
Qed.

Lemma lines_of_append s rest :
  is_line s → lines_of (s +:+ String LF rest) = s :: lines_of rest.
Proof.
  induction s as [| a s IH].
  - intros _. change (EmptyString +:+ String LF rest) with (String LF rest).
    cbn [lines_of]. by destruct (decide (LF = LF)).
  - intros [Ha Hs]%is_line_cons.
    rewrite canonicalizer_properties.append_cons. cbn [lines_of].
    destruct (decide (a = LF)) as [| _]; [done |]. by rewrite (IH Hs).
Qed.

Lemma is_line_append s t : is_line s → is_line t → is_line (s +:+ t).
Proof.
  induction s as [| a s IH]; [done |].
  intros [Ha Hs]%is_line_cons Ht. rewrite canonicalizer_properties.append_cons.
  apply is_line_cons. auto.
Qed.

Lemma strip_line s : is_line s → is_line (strip s).
Proof.
  induction s as [| a s IH]; [done |].
  intros [Ha Hs]%is_line_cons. specialize (IH Hs). simpl.
  destruct (strip s) as [| b kept].
  - destruct (blank a); [done |]. by apply is_line_cons.
  - by apply is_line_cons.
Qed.

Lemma strip_append_CR s : strip (s +:+ String CR EmptyString) = strip s.
Proof.
  induction s as [| a s IH]; [reflexivity |].
  rewrite canonicalizer_properties.append_cons.
  change (strip (String a (s +:+ String CR EmptyString)))
    with (match strip (s +:+ String CR EmptyString) with
          | EmptyString => if blank a then EmptyString else String a EmptyString
          | kept => String a kept
          end).
  by rewrite IH.
Qed.

Lemma strip_strip s : strip (strip s) = strip s.
Proof.
  induction s as [| a s IH]; [reflexivity |].
  simpl. destruct (strip s) as [| b kept] eqn:Hs.
  - destruct (blank a) eqn:Ha; [reflexivity |]. simpl. by rewrite Ha.
  - change (strip (String a (String b kept)))
      with (match strip (String b kept) with
            | EmptyString => if blank a then EmptyString else String a EmptyString
            | k => String a k
            end).
    by rewrite IH.
Qed.

(** Splitting what was rejoined gives the lines back, each but the last
    with a carriage return at its end. *)
Lemma strip_lines_of_rejoin lines :
  lines ≠ [] → Forall is_line lines →
  map strip (lines_of (rejoin lines)) = map strip lines.
Proof.
  induction lines as [| line more IH]; [done |]. intros _ Hall.
  apply Forall_cons in Hall as [Hline Hmore].
  destruct more as [| next more].
  - simpl. by rewrite lines_of_line.
  - change (rejoin (line :: next :: more))
      with (line +:+ CRLF +:+ rejoin (next :: more)).
    change (line +:+ CRLF +:+ rejoin (next :: more))
      with (line +:+ (String CR EmptyString +:+ String LF (rejoin (next :: more)))).
    rewrite <- canonicalizer_properties.append_assoc.
    rewrite lines_of_append.
    + simpl map. rewrite strip_append_CR. f_equal. by apply IH.
    + apply is_line_append; [done |]. by apply is_line_cons.
Qed.

Lemma CountByte_append s t c :
  CountByte (s +:+ t) c = CountByte s c + CountByte t c.
Proof.
  induction s as [| a s IH]; [reflexivity |].
  rewrite canonicalizer_properties.append_cons. simpl. rewrite IH. lia.
Qed.

Lemma lines_of_length text : length (lines_of text) = S (CountByte text LF).
Proof.
  induction text as [| a text IH]; [reflexivity |]. simpl.
  case_decide; simpl; [by rewrite IH |].
  destruct (lines_of text); simpl in *; lia.
Qed.

Lemma CountByte_rejoin lines :
  Forall is_line lines → CountByte (rejoin lines) LF = pred (length lines).
Proof.
  induction lines as [| line more IH]; [done |]. intros Hall.
  apply Forall_cons in Hall as [Hline Hmore].
  destruct more as [| next more]; [exact Hline |].
  change (rejoin (line :: next :: more))
    with (line +:+ CRLF +:+ rejoin (next :: more)).
  rewrite !CountByte_append, (IH Hmore). unfold is_line in Hline.
  rewrite Hline. reflexivity.
Qed.
End canonical_form_properties.

(** Canonicalizing twice is canonicalizing once: the result of
    [CanonicalizeAndTrim] is left unchanged by [CanonicalizeAndTrim]. *)
Theorem CanonicalizeAndTrim_idempotent (text : string) :
  internal.CanonicalizeAndTrim (internal.CanonicalizeAndTrim text)
  = internal.CanonicalizeAndTrim text.
Proof.
  rewrite !canonical_form_properties.CanonicalizeAndTrim_eq.
  unfold canonical_form.canonicalize at 1 3.
  unfold canonical_form.canonicalize.
  rewrite canonical_form_properties.strip_lines_of_rejoin.
  - rewrite map_map. f_equal. apply map_ext.
    intros line. apply canonical_form_properties.strip_strip.
  - intros Hnil. apply map_eq_nil in Hnil.
    by apply (canonical_form_properties.lines_of_not_nil text).
  - apply Forall_map. eapply Forall_impl.
    + apply canonical_form_properties.lines_of_lines.
    + intros line. apply canonical_form_properties.strip_line.
Qed.

(** [CanonicalizeAndTrim] keeps the number of lines: its result has as many
    line feeds as the text. *)
Theorem CanonicalizeAndTrim_line_feeds (text : string) :
  strings.CountByte (internal.CanonicalizeAndTrim text) internal.LF
  = strings.CountByte text internal.LF.
Proof.
  rewrite canonical_form_properties.CanonicalizeAndTrim_eq.
  unfold canonical_form.canonicalize.
  rewrite canonical_form_properties.CountByte_rejoin.
  - by rewrite length_map, canonical_form_properties.lines_of_length.
  - apply Forall_map. eapply Forall_impl.
    + apply canonical_form_properties.lines_of_lines.
    + intros line. apply canonical_form_properties.strip_line.
Qed.
